(** * Citadel: comparison hardening of textual LLVM IR

    A shallow embedding of the three Python tools of the repository:

    - [llvm_protector.py]         (module [Basic]): protects every comparison;
    - [llvm_protector_ranked.py]  (module [Ranked]): scores comparisons and
      protects those at or above a threshold;
    - [verify_protection.py]      (module [Verifier]): checks that the
      protection survives the optimizer.

    Modelling choices:

    - text is a [string], one [ascii] per character (the units are ASCII
      text); a file is its decoded content, and [readlines] cuts it into a
      [list string];
    - the block dictionary is a [gmap string (list string)], the [visited]
      set a [gset string] threaded through the recursion that shares it;
    - Python [int] is [Z] (scores, thresholds, constants) or [nat]
      (counters, counts);
    - a raised exception is the [Raised] outcome of [res]; nothing is
      written when [process_file] raises, so the output is part of the [Ok]
      outcome only;
    - the counters of a protector object and the [results] dictionary of the
      verifier are passed in and returned;
    - reading and writing files, printing, and the optimizer process are
      left out: the optimizer is a parameter of the pipeline, and the
      interpreter's recursion limit is not modelled. *)

From Stdlib Require Import ZArith Ascii String DecimalString.
From Stdlib Require DecimalNat DecimalFacts.
From stdpp Require Import gmap strings list fin_maps.

Local Open Scope Z_scope.

(** ** Python string primitives *)

Module PyStr.

(** The characters [str.split()] and [str.strip()] treat as white space,
    within ASCII: tab, line feed, vertical tab, form feed, carriage
    return, the four separators 28 to 31, and the space. *)
Definition isspace (c : ascii) : bool :=
  match c with
  | "009" | "010" | "011" | "012" | "013"
  | "028" | "029" | "030" | "031" | " " => true
  | _ => false
  end%char.

(** [c.isdigit()] for an ASCII character. *)
Definition isdigit (c : ascii) : bool :=
  match c with
  | "0" | "1" | "2" | "3" | "4" | "5" | "6" | "7" | "8" | "9" => true
  | _ => false
  end%char.

Definition is_empty (s : string) : bool :=
  match s with EmptyString => true | String _ _ => false end.

(** [s.startswith(p)] *)
Fixpoint startswith (p s : string) : bool :=
  match p, s with
  | EmptyString, _ => true
  | String a p', String b s' => if decide (a = b) then startswith p' s' else false
  | String _ _, EmptyString => false
  end.

(** [sub in s] *)
Fixpoint contains (sub s : string) : bool :=
  startswith sub s ||
  match s with
  | EmptyString => false
  | String _ s' => contains sub s'
  end.

(** [s.lstrip(chars)] and [s.rstrip(chars)], the characters to remove
    given as a predicate. *)
Fixpoint lstrip_by (p : ascii -> bool) (s : string) : string :=
  match s with
  | EmptyString => EmptyString
  | String c s' => if p c then lstrip_by p s' else s
  end.

Fixpoint rstrip_by (p : ascii -> bool) (s : string) : string :=
  match s with
  | EmptyString => EmptyString
  | String c s' =>
      let r := rstrip_by p s' in
      if is_empty r && p c then EmptyString else String c r
  end.

Definition is_char (c : ascii) : ascii -> bool := fun x => bool_decide (x = c).

(** [s.strip()] *)
Definition strip (s : string) : string := rstrip_by isspace (lstrip_by isspace s).

(** [s.split()]: the maximal runs of characters that are not white
    space. [cur] is the run being read. *)
Fixpoint split_go (s cur : string) : list string :=
  match s with
  | EmptyString => if is_empty cur then [] else [cur]
  | String c s' =>
      if isspace c
      then (if is_empty cur then split_go s' EmptyString
            else cur :: split_go s' EmptyString)
      else split_go s' (cur +:+ String c EmptyString)
  end.

Definition split (s : string) : list string := split_go s EmptyString.

(** [s.split(sep)[0]] for a one-character separator: the text before its
    first occurrence, all of [s] when there is none. *)
Fixpoint before (sep : ascii) (s : string) : string :=
  match s with
  | EmptyString => EmptyString
  | String c s' => if decide (c = sep) then EmptyString else String c (before sep s')
  end.

(** The first character satisfies [p] ([s[0].isdigit()] on a non-empty [s]). *)
Definition head_is (p : ascii -> bool) (s : string) : bool :=
  match s with
  | EmptyString => false
  | String c _ => p c
  end.

(** [str(n)] for a natural number. *)
Definition str (n : nat) : string := NilZero.string_of_uint (Nat.to_uint n).

(** The line feed. *)
Definition nl : string := String "010"%char EmptyString.

(** [f.readlines()] on the decoded content of a file: the text cut after
    every line feed. *)
Fixpoint readlines_go (s cur : string) : list string :=
  match s with
  | EmptyString => if is_empty cur then [] else [cur]
  | String c s' =>
      if decide (c = "010"%char)
      then (cur +:+ String c EmptyString) :: readlines_go s' EmptyString
      else readlines_go s' (cur +:+ String c EmptyString)
  end.

Definition readlines (s : string) : list string := readlines_go s EmptyString.

#[global] Arguments startswith : simpl never.
#[global] Arguments contains : simpl never.
#[global] Arguments split : simpl never.
#[global] Arguments strip : simpl never.
#[global] Arguments lstrip_by : simpl never.
#[global] Arguments rstrip_by : simpl never.
#[global] Arguments before : simpl never.
#[global] Arguments str : simpl never.

End PyStr.

Import PyStr.

(** ** Exceptions *)

Inductive exn := IndexError | ZeroDivisionError.

Inductive res (A : Type) :=
| Ok (a : A)
| Raised (e : exn).
Arguments Ok {A} a.
Arguments Raised {A} e.

Definition bind {A B} (r : res A) (k : A -> res B) : res B :=
  match r with
  | Ok a => k a
  | Raised e => Raised e
  end.

Notation "x <- r ;; k" := (bind r (fun x => k))
  (at level 100, r at next level, right associativity).

(** [parts[i]], raising [IndexError] out of range. *)
Definition item (parts : list string) (i : nat) : res string :=
  match parts !! i with
  | Some p => Ok p
  | None => Raised IndexError
  end.

(** ** [parse_icmp] (the same text in both protectors) *)

Record icmp_info := {
  result : string;
  type : string;
  op1 : string;
  op2 : string;
  full_line : string;
}.

Definition parse_icmp (line : string) : option icmp_info :=
  if negb (contains "icmp" line) then None
  else
    let parts := split line in
    if (length parts <? 7)%nat then None
    else
      match parts with
      | p0 :: _ :: _ :: _ :: p4 :: p5 :: p6 :: _ =>
          Some {| result := p0; type := p4;
                  op1 := rstrip_by (is_char ","%char) p5;
                  op2 := p6; full_line := strip line |}
      | _ => None
      end.


(** ** The injection loop (the same text in both protectors)

    The two [process_file] methods share their [while] loop word for word;
    they differ in how the comparison to protect at line [i] is found, which
    is the parameter [eligible] here. *)

Record counters := {
  register_counter : nat;
  block_counter : nat;
}.

(** [LLVMProtector.__init__] *)
Definition init_counters : counters :=
  {| register_counter := 1000; block_counter := 100 |}.

Definition abort_decl : string :=
  nl +:+ "declare void @abort() noreturn" +:+ nl +:+ nl.

Definition dup_line (dup_reg : string) (info : icmp_info) : string :=
  "  " +:+ dup_reg +:+ " = icmp eq " +:+ type info +:+ " " +:+ op1 info
  +:+ ", " +:+ op2 info +:+ nl.

Definition verify_line (verify_reg dup_reg : string) (info : icmp_info) : string :=
  "  " +:+ verify_reg +:+ " = icmp eq i1 " +:+ result info +:+ ", " +:+ dup_reg +:+ nl.

(** The six entries that replace the consuming branch. *)
Definition split_lines (verify_reg safe_label fault_label true_label false_label : string)
    (info : icmp_info) : list string :=
  [ "  br i1 " +:+ verify_reg +:+ ", label %" +:+ safe_label
      +:+ ", label %" +:+ fault_label +:+ nl +:+ nl;
    safe_label +:+ ":" +:+ nl;
    "  br i1 " +:+ result info +:+ ", label " +:+ true_label
      +:+ ", label " +:+ false_label +:+ nl +:+ nl;
    fault_label +:+ ":" +:+ nl;
    "  call void @abort()" +:+ nl;
    "  unreachable" +:+ nl +:+ nl ].

(** ['br i1' in lines[i] and icmp_info['result'] in lines[i]] *)
Definition consumes (cmp_result line : string) : bool :=
  contains "br i1" line && contains cmp_result line.

(** Where the loop stands: in the outer [while], or in the inner one that
    copies lines until the branch consuming [info] is met. *)
Inductive mode :=
| Scanning
| Copying (info : icmp_info) (verify_reg : string).

(** [output.append] of [ls] before what the rest of the run appends. *)
Definition emit (ls : list string) (r : res (list string * counters))
  : res (list string * counters) :=
  p <- r ;; Ok (ls ++ p.1, p.2).

Section Injector.
Variable eligible : nat -> string -> option icmp_info.

Fixpoint inject (i : nat) (lines : list string) (m : mode) (added_abort : bool)
    (c : counters) : res (list string * counters) :=
  match lines with
  | [] => Ok ([], c)
  | line :: rest =>
      match m with
      | Scanning =>
          if contains "target triple" line && negb added_abort then
            emit [line; abort_decl] (inject (S i) rest Scanning true c)
          else
            match eligible i line with
            | Some info =>
                let dup_reg := "%dup_" +:+ str (register_counter c) in
                let c := {| register_counter := S (register_counter c);
                            block_counter := block_counter c |} in
                let verify_reg := "%verify_" +:+ str (register_counter c) in
                let c := {| register_counter := S (register_counter c);
                            block_counter := block_counter c |} in
                emit [line; dup_line dup_reg info; verify_line verify_reg dup_reg info]
                     (inject (S i) rest (Copying info verify_reg) added_abort c)
            | None => emit [line] (inject (S i) rest Scanning added_abort c)
            end
      | Copying info verify_reg =>
          if consumes (result info) line then
            let br_parts := split line in
            p4 <- item br_parts 4 ;;
            let true_label := rstrip_by (is_char ","%char) p4 in
            false_label <- item br_parts 6 ;;
            let safe_label := "safe_" +:+ str (block_counter c) in
            let fault_label := "fault_" +:+ str (block_counter c) in
            let c := {| register_counter := register_counter c;
                        block_counter := S (block_counter c) |} in
            emit (split_lines verify_reg safe_label fault_label true_label false_label info)
                 (inject (S i) rest Scanning added_abort c)
          else emit [line] (inject (S i) rest (Copying info verify_reg) added_abort c)
      end
  end.
End Injector.

(** * The basic protector ([llvm_protector.py]) *)

Module Basic.

(** Every line [parse_icmp] accepts is protected. *)
Definition eligible (i : nat) (line : string) : option icmp_info := parse_icmp line.

Definition process_file (lines : list string) (self : counters)
  : res (list string * counters) :=
  inject eligible 0 lines Scanning false self.

End Basic.

(** * The ranked protector ([llvm_protector_ranked.py]) *)

Module Ranked.

(** ** [build_block_map] *)

(** The loop variables of [build_block_map]. [current_label] starts as
    Python's [None]. *)
Record bb_state := {
  blocks : gmap string (list string);
  current_label : option string;
  current_instructions : list string;
}.

(** Python truth of [current_label]: neither [None] nor the empty string. *)
Definition truthy (o : option string) : bool :=
  match o with
  | Some s => negb (is_empty s)
  | None => false
  end.

(** [if current_label: blocks[current_label] = current_instructions] *)
Definition flush (st : bb_state) : gmap string (list string) :=
  match current_label st with
  | Some l => if is_empty l then blocks st
              else <[l := current_instructions st]> (blocks st)
  | None => blocks st
  end.

(** The outer test of the loop body, on the stripped line. *)
Definition label_guard (stripped : string) : bool :=
  negb (is_empty stripped) &&
  (head_is isdigit stripped || contains "safe_" stripped || contains "fault_" stripped).

Definition has_colon (stripped : string) : bool := contains ":" stripped.

Definition bb_step (st : bb_state) (line : string) : bb_state :=
  let stripped := strip line in
  if label_guard stripped then
    if has_colon stripped then
      {| blocks := flush st;
         current_label := Some (before ":"%char stripped);
         current_instructions := [] |}
    else st
  else if truthy (current_label st) then
    {| blocks := blocks st;
       current_label := current_label st;
       current_instructions := current_instructions st ++ [line] |}
  else st.

Definition bb_init : bb_state :=
  {| blocks := ∅; current_label := None; current_instructions := [] |}.

Definition build_block_map (lines : list string) : gmap string (list string) :=
  flush (fold_left bb_step lines bb_init).

(** ** [find_return_value] *)

(** [part.lstrip('%').rstrip(',')] *)
Definition label_of (part : string) : string :=
  rstrip_by (is_char ","%char) (lstrip_by (is_char "%"%char) part).

(** The resolver shares one mutable [visited] set between all recursive
    calls, so the set is threaded: a call returns its answer and the set
    as it left it. [None] is Python's [None] (unknown). The recursion is
    on [fuel]; running out of it is the outer [None] of the result.
    More fuel than there are blocks is always enough ([resolve_returns]),
    and more fuel never changes an answer ([resolve_more_fuel]). *)
Section Resolver.
Variable blocks : gmap string (list string).

Section Body.
(** The recursive call [self.find_return_value(next_label, blocks, visited)]. *)
Variable rec : string -> gset string -> option (option Z * gset string).

(** [for part in parts: if part.startswith('%'): ...] *)
Fixpoint follow_parts (parts : list string) (visited : gset string)
  : option (option Z * gset string) :=
  match parts with
  | [] => Some (None, visited)
  | part :: parts' =>
      if startswith "%" part then
        match rec (label_of part) visited with
        | None => None
        | Some (Some r, visited') => Some (Some r, visited')
        | Some (None, visited') => follow_parts parts' visited'
        end
      else follow_parts parts' visited
  end.

(** [for line in block_lines: ...] *)
Fixpoint scan_block (block_lines : list string) (visited : gset string)
  : option (option Z * gset string) :=
  match block_lines with
  | [] => Some (None, visited)
  | line :: rest =>
      if contains "ret i32 1" line then Some (Some 1, visited)
      else if contains "ret i32 0" line then Some (Some 0, visited)
      else if contains "store i32 1" line then Some (Some 1, visited)
      else if contains "store i32 0" line then Some (Some 0, visited)
      else if contains "br label" line then
        match follow_parts (split line) visited with
        | None => None
        | Some (Some r, visited') => Some (Some r, visited')
        | Some (None, visited') => scan_block rest visited'
        end
      else scan_block rest visited
  end.
End Body.

Fixpoint resolve (fuel : nat) (label : string) (visited : gset string)
  : option (option Z * gset string) :=
  match fuel with
  | O => None
  | S fuel' =>
      if decide (label ∈ visited) then Some (None, visited)
      else
        let visited := {[label]} ∪ visited in
        let block_lines := default [] (blocks !! label) in
        scan_block (resolve fuel') block_lines visited
  end.

(** The call with [visited=None]: a fresh empty set. *)
Definition find_return_value (label : string) : option Z :=
  match resolve (S (size blocks)) label ∅ with
  | Some (r, _) => r
  | None => None
  end.
End Resolver.

(** ** [score_comparison] *)

(** [range(line_idx + 1, min(line_idx + 5, len(lines)))] as the lines it
    indexes. *)
Definition window (lines : list string) (line_idx : nat) : list string :=
  take 4 (drop (S line_idx) lines).

(** The body of the [if] of [score_comparison], on the branch line found. *)
Definition score_branch (blocks : gmap string (list string)) (line : string) : res Z :=
  let parts := split line in
  p4 <- item parts 4 ;;
  let true_label := label_of p4 in
  let false_label :=
    if (6 <? length parts)%nat then label_of <$> (parts !! 6%nat) else None in
  let true_ret := find_return_value blocks true_label in
  let false_ret :=
    if truthy false_label
    then find_return_value blocks (default EmptyString false_label)
    else None in
  if bool_decide (true_ret ≠ None) && bool_decide (false_ret ≠ None)
     && bool_decide (true_ret ≠ false_ret)
  then Ok 100
  else if bool_decide (true_ret ≠ None) || bool_decide (false_ret ≠ None)
  then Ok 30
  else Ok 0.

Definition score_comparison (cmp_result : string) (lines : list string)
    (line_idx : nat) : res Z :=
  let blocks := build_block_map lines in
  match List.find (consumes cmp_result) (window lines line_idx) with
  | Some line => score_branch blocks line
  | None => Ok 0
  end.

(** ** [process_file] *)

(** A comparison record once scored: the dictionary of [parse_icmp] with
    its two added keys. *)
Record comparison := {
  info : icmp_info;
  score : Z;
  line_num : nat;
}.

(** The first loop of [process_file], from line [i] on: all comparisons,
    and those to protect. *)
Fixpoint scan (all_lines : list string) (threshold : Z) (i : nat)
    (lines : list string) : res (list comparison * list comparison) :=
  match lines with
  | [] => Ok ([], [])
  | line :: rest =>
      match parse_icmp line with
      | Some icmp =>
          s <- score_comparison (result icmp) all_lines i ;;
          let cmp := {| info := icmp; score := s; line_num := i |} in
          p <- scan all_lines threshold (S i) rest ;;
          Ok (cmp :: p.1, if bool_decide (threshold ≤ s) then cmp :: p.2 else p.2)
      | None => scan all_lines threshold (S i) rest
      end
  end.

(** [i in protected_indices], and then
    [next(cmp for cmp in comparisons_to_protect if cmp['line_num'] == i)]. *)
Definition eligible (comparisons_to_protect : list comparison) (i : nat)
    (line : string) : option icmp_info :=
  info <$> List.find (fun cmp => bool_decide (line_num cmp = i)) comparisons_to_protect.

(** The protector object: its counters and [self.comparisons]. *)
Record protector := {
  ctrs : counters;
  comparisons : list comparison;
}.

Definition init : protector := {| ctrs := init_counters; comparisons := [] |}.

Definition process_file (lines : list string) (threshold : Z) (self : protector)
  : res (list string * protector) :=
  p <- scan lines threshold 0 lines ;;
  o <- inject (eligible p.2) 0 lines Scanning false (ctrs self) ;;
  Ok (o.1, {| ctrs := o.2; comparisons := comparisons self ++ p.1 |}).

(** The comparisons [process_file] selects, and the text it writes. *)
Definition selected (lines : list string) (threshold : Z) : res (list comparison) :=
  p <- scan lines threshold 0 lines ;; Ok p.2.

Definition output (lines : list string) (threshold : Z) : res (list string) :=
  p <- process_file lines threshold init ;; Ok p.1.

End Ranked.

(** * The verification engine ([verify_protection.py]) *)

Module Verifier.

(** ** [re.findall] for the three patterns in use

    A pattern is given by the length of its match at the start of a text,
    if it matches there. [re.findall] scans from the left and resumes
    after each match; none of the patterns matches the empty text. *)

(** A literal pattern. *)
Definition literal (pat s : string) : option nat :=
  if startswith pat s then Some (String.length pat) else None.

Fixpoint string_drop (n : nat) (s : string) : string :=
  match n, s with
  | O, _ => s
  | S n', String _ s' => string_drop n' s'
  | S _, EmptyString => EmptyString
  end.

Fixpoint digits_at (s : string) : nat :=
  match s with
  | String c s' => if isdigit c then S (digits_at s') else O
  | EmptyString => O
  end.

(** [prefix\d+]: the prefix, then as many digits as follow, at least one. *)
Definition prefix_digits (prefix s : string) : option nat :=
  if startswith prefix s then
    match digits_at (string_drop (String.length prefix) s) with
    | O => None
    | S d => Some (String.length prefix + S d)%nat
    end
  else None.

(** [len(re.findall(pattern, content))]; [skip] characters of the last
    match are still to be passed. *)
Fixpoint findall_count (pattern : string -> option nat) (content : string)
    (skip : nat) : nat :=
  match content with
  | EmptyString => O
  | String _ rest =>
      match skip with
      | S k => findall_count pattern rest k
      | O =>
          match pattern content with
          | Some n => S (findall_count pattern rest (Nat.pred n))
          | None => findall_count pattern rest O
          end
      end
  end.

Definition count_pattern (content : string) (pattern : string -> option nat) : nat :=
  findall_count pattern content O.

(** [count_lines]: the lines that are neither blank nor comments. *)
Definition count_lines (content : string) : nat :=
  length (filter (fun l => negb (is_empty (strip l)) && negb (startswith ";" (strip l)) = true)
                 (readlines content)).

Definition verify_abort_present (content : string) : bool * nat :=
  let count := count_pattern content (literal "call void @abort") in
  (bool_decide (0 < count)%nat, count).

Definition verify_duplicates_present (content : string) : bool * nat :=
  let count := count_pattern content (prefix_digits "%dup_") in
  (bool_decide (0 < count)%nat, count).

Definition verify_verification_present (content : string) : bool * nat :=
  let count := count_pattern content (prefix_digits "%verify_") in
  (bool_decide (0 < count)%nat, count).

(** [self.results] *)
Record results := {
  original_size : nat;
  protected_size : nat;
  optimized_size : nat;
  abort_calls_protected : nat;
  abort_calls_optimized : nat;
  duplicate_cmp_protected : nat;
  duplicate_cmp_optimized : nat;
  verification_passed : bool;
}.

(** [ProtectionVerifier.__init__] *)
Definition init : results :=
  {| original_size := 0; protected_size := 0; optimized_size := 0;
     abort_calls_protected := 0; abort_calls_optimized := 0;
     duplicate_cmp_protected := 0; duplicate_cmp_optimized := 0;
     verification_passed := false |}.

Definition set_abort_calls_protected (n : nat) (r : results) : results :=
  {| original_size := original_size r; protected_size := protected_size r;
     optimized_size := optimized_size r;
     abort_calls_protected := n; abort_calls_optimized := abort_calls_optimized r;
     duplicate_cmp_protected := duplicate_cmp_protected r;
     duplicate_cmp_optimized := duplicate_cmp_optimized r;
     verification_passed := verification_passed r |}.

Definition set_abort_calls_optimized (n : nat) (r : results) : results :=
  {| original_size := original_size r; protected_size := protected_size r;
     optimized_size := optimized_size r;
     abort_calls_protected := abort_calls_protected r; abort_calls_optimized := n;
     duplicate_cmp_protected := duplicate_cmp_protected r;
     duplicate_cmp_optimized := duplicate_cmp_optimized r;
     verification_passed := verification_passed r |}.

Definition set_duplicate_cmp_protected (n : nat) (r : results) : results :=
  {| original_size := original_size r; protected_size := protected_size r;
     optimized_size := optimized_size r;
     abort_calls_protected := abort_calls_protected r;
     abort_calls_optimized := abort_calls_optimized r;
     duplicate_cmp_protected := n;
     duplicate_cmp_optimized := duplicate_cmp_optimized r;
     verification_passed := verification_passed r |}.

Definition set_duplicate_cmp_optimized (n : nat) (r : results) : results :=
  {| original_size := original_size r; protected_size := protected_size r;
     optimized_size := optimized_size r;
     abort_calls_protected := abort_calls_protected r;
     abort_calls_optimized := abort_calls_optimized r;
     duplicate_cmp_protected := duplicate_cmp_protected r;
     duplicate_cmp_optimized := n;
     verification_passed := verification_passed r |}.

Definition set_original_size (n : nat) (r : results) : results :=
  {| original_size := n; protected_size := protected_size r;
     optimized_size := optimized_size r;
     abort_calls_protected := abort_calls_protected r;
     abort_calls_optimized := abort_calls_optimized r;
     duplicate_cmp_protected := duplicate_cmp_protected r;
     duplicate_cmp_optimized := duplicate_cmp_optimized r;
     verification_passed := verification_passed r |}.

Definition set_protected_size (n : nat) (r : results) : results :=
  {| original_size := original_size r; protected_size := n;
     optimized_size := optimized_size r;
     abort_calls_protected := abort_calls_protected r;
     abort_calls_optimized := abort_calls_optimized r;
     duplicate_cmp_protected := duplicate_cmp_protected r;
     duplicate_cmp_optimized := duplicate_cmp_optimized r;
     verification_passed := verification_passed r |}.

Definition set_optimized_size (n : nat) (r : results) : results :=
  {| original_size := original_size r; protected_size := protected_size r;
     optimized_size := n;
     abort_calls_protected := abort_calls_protected r;
     abort_calls_optimized := abort_calls_optimized r;
     duplicate_cmp_protected := duplicate_cmp_protected r;
     duplicate_cmp_optimized := duplicate_cmp_optimized r;
     verification_passed := verification_passed r |}.

Definition set_verification_passed (b : bool) (r : results) : results :=
  {| original_size := original_size r; protected_size := protected_size r;
     optimized_size := optimized_size r;
     abort_calls_protected := abort_calls_protected r;
     abort_calls_optimized := abort_calls_optimized r;
     duplicate_cmp_protected := duplicate_cmp_protected r;
     duplicate_cmp_optimized := duplicate_cmp_optimized r;
     verification_passed := b |}.

(** Each method takes the contents of the files it reads and the
    [results] dictionary, and returns its value with the dictionary as it
    left it. *)

Definition verify_protected_ir (protected_ir : string) (r : results) : bool * results :=
  let '(has_abort, abort_count) := verify_abort_present protected_ir in
  let r := set_abort_calls_protected abort_count r in
  if negb has_abort then (false, r)
  else
    let '(has_dups, dup_count) := verify_duplicates_present protected_ir in
    let r := set_duplicate_cmp_protected dup_count r in
    if negb has_dups then (false, r)
    else
      let '(has_verify, verify_count) := verify_verification_present protected_ir in
      if negb has_verify then (false, r)
      else (true, set_protected_size (count_lines protected_ir) r).

Definition verify_optimized_ir (optimized_ir : string) (r : results) : bool * results :=
  let '(has_abort, abort_count) := verify_abort_present optimized_ir in
  let r := set_abort_calls_optimized abort_count r in
  if negb has_abort then (false, r)
  else
    let '(has_dups, dup_count) := verify_duplicates_present optimized_ir in
    let r := set_duplicate_cmp_optimized dup_count r in
    (true, set_optimized_size (count_lines optimized_ir) r).

(** [print_summary] formats [(prot_size-orig_size)/orig_size*100] and two
    more quotients by [orig_size]: Python raises [ZeroDivisionError] at
    the first when the original unit has no counted line. *)
Definition print_summary (original_ir : string) (r : results) : res unit * results :=
  let orig_size := count_lines original_ir in
  let r := set_original_size orig_size r in
  if bool_decide (orig_size = 0%nat) then (Raised ZeroDivisionError, r)
  else if bool_decide (0 < abort_calls_optimized r)%nat
  then (Ok (), set_verification_passed true r)
  else (Ok (), r).

Section Pipeline.
(** The external optimizer ([opt-14 -O2] through
    [compile_with_optimization]): the optimized unit, or [None] when
    the tool fails. *)
Variable compile_with_optimization : string -> option string.

Definition run_verification (original_ir protected_ir : string) (r : results)
  : res bool * results :=
  let '(ok, r) := verify_protected_ir protected_ir r in
  if negb ok then (Ok false, r)
  else
    match compile_with_optimization protected_ir with
    | None => (Ok false, r)
    | Some optimized_ir =>
        let '(ok, r) := verify_optimized_ir optimized_ir r in
        if negb ok then (Ok false, r)
        else
          match print_summary original_ir r with
          | (Raised e, r) => (Raised e, r)
          | (Ok _, r) => (Ok (verification_passed r), r)
          end
    end.
End Pipeline.

End Verifier.

(** * Vocabulary of the statements

    The predicates, measures and sample units the lemmas and theorems below
    are stated with. *)

(** ** Sample units *)

(** A line of a unit: the text and its line feed. *)
Definition line (s : string) : string := s +:+ nl.

(** Two comparisons, the second between the first and its branch. *)
Definition nested_unit : list string :=
  [ line "  %a = icmp eq i32 %x, 1";
    line "  %b = icmp eq i32 %y, 2";
    line "  br i1 %a, label %1, label %2";
    line "1:";
    line "  br i1 %b, label %3, label %2";
    line "2:";
    line "  ret i32 0";
    line "3:";
    line "  ret i32 1" ].

(** A comparison whose two targets both return 0. *)
Definition same_return_unit : list string :=
  [ line "  %c = icmp eq i32 %x, 1";
    line "  br i1 %c, label %1, label %2";
    line "1:";
    line "  ret i32 0";
    line "2:";
    line "  ret i32 0" ].

(** A decision gate on [%1] whose branch comes after a branch on [%2]
    that names the blocks [%10] and [%13]. *)
Definition shadowed_unit : list string :=
  [ line "  %1 = icmp eq i32 %x, 1";
    line "  %2 = icmp eq i32 %y, 2";
    line "  br i1 %2, label %10, label %13";
    line "10:";
    line "  br i1 %1, label %11, label %12";
    line "11:";
    line "  ret i32 1";
    line "12:";
    line "  ret i32 0";
    line "13:";
    line "  ret i32 0" ].

(** A comparison [%1] whose branch has two targets that return 0, after a
    branch on [%0] that names the blocks [%10] and [%13]. *)
Definition shadowed_same_unit : list string :=
  [ line "  %1 = icmp eq i32 %x, 1";
    line "  br i1 %0, label %10, label %13";
    line "10:";
    line "  store i32 1, i32* %r, align 4";
    line "  br i1 %1, label %11, label %12";
    line "11:";
    line "  ret i32 0";
    line "12:";
    line "  ret i32 0";
    line "13:";
    line "  ret i32 0" ].

(** A comparison whose result feeds no branch, before a decision gate. *)
Definition swallow_unit : list string :=
  [ line "  %a = icmp eq i32 %x, 1";
    line "  %r = zext i1 %a to i32";
    line "  %b = icmp eq i32 %y, 2";
    line "  br i1 %b, label %3, label %2";
    line "2:";
    line "  ret i32 0";
    line "3:";
    line "  ret i32 1" ].

(** Two comparisons, each followed by its own branch. *)
Definition sequential_unit : list string :=
  [ line "  %a = icmp eq i32 %x, 1";
    line "  br i1 %a, label %1, label %4";
    line "1:";
    line "  %b = icmp eq i32 %y, 2";
    line "  br i1 %b, label %3, label %2";
    line "2:";
    line "  ret i32 0";
    line "3:";
    line "  ret i32 1";
    line "4:";
    line "  br label %2" ].

(** A comparison followed by a branch line cut short. *)
Definition short_branch_unit : list string :=
  [ line "  %c = icmp eq i32 %a, %b";
    line "  br i1 %c" ].

(** A unit that starts with its target line, as read from its file. *)
Definition unit_with_target : list string :=
  readlines (line "target triple = x86_64-pc-linux-gnu"
             +:+ line "  %a = icmp eq i32 %x, 1"
             +:+ line "  br i1 %a, label %1, label %2"
             +:+ line "1:" +:+ line "  ret i32 1"
             +:+ line "2:" +:+ line "  ret i32 0").

(** A block map with a cycle of branches and no constant. *)
Definition cycle_blocks : gmap string (list string) :=
  <["1" := [line "  br label %2"] ]>
    (<["2" := [line "  br label %1"] ]> ∅).

(** A protected unit with its three artifacts. *)
Definition protected_sample : string :=
  line "  %dup_1000 = icmp eq i32 %x, 1"
  +:+ line "  %verify_1001 = icmp eq i1 %a, %dup_1000"
  +:+ line "  call void @abort()".

(** An optimizer that keeps the abort call and nothing else. *)
Definition keeping_optimizer (protected_ir : string) : option string :=
  Some (line "  call void @abort()").

(** An original unit that holds a comment only. *)
Definition comment_only_original : string := line "; ModuleID = 'password.c'".

(** ** The resolver *)

Section OverBlocks.
Variable blocks : gmap string (list string).

(** The blocks not yet entered: what bounds the depth of the recursion. *)
Definition unvisited (visited : gset string) : nat := size (dom blocks ∖ visited).

(** A recursive call that returns on every set above [v0], and only adds
    to the set. *)
Definition returns_above (rec : string → gset string → option (option Z * gset string))
    (v0 : gset string) : Prop :=
  ∀ l v, v0 ⊆ v → ∃ r v', rec l v = Some (r, v') ∧ v ⊆ v'.

(** A line on which the resolver answers with a constant. *)
Definition yields_constant (line : string) : bool :=
  contains "ret i32 1" line || contains "ret i32 0" line
  || contains "store i32 1" line || contains "store i32 0" line.

(** [reach l m]: block [m] is met from [l] along [br label] lines. *)
Inductive reach : string → string → Prop :=
| reach_here l : reach l l
| reach_br l m line part :
    reach l m →
    line ∈ default [] (blocks !! m) →
    contains "br label" line = true →
    part ∈ split line →
    startswith "%" part = true →
    reach l (Ranked.label_of part).

(** A recursive call that can only answer unknown at [l]. *)
Definition unknown_on (rec : string → gset string → option (option Z * gset string))
    (l : string) : Prop :=
  ∀ v r v', rec l v = Some (r, v') → r = None.

End OverBlocks.

(** ** The block map builder *)

(** A line that opens a block: both tests of the loop body pass. *)
Definition is_label_line (line : string) : bool :=
  Ranked.label_guard (strip line) && Ranked.has_colon (strip line).

(** The key it opens: [stripped.split(':')[0]]. *)
Definition label_name (line : string) : string := before ":"%char (strip line).

(** A line the builder files under the open block: the outer test fails. *)
Definition is_plain (line : string) : bool := negb (Ranked.label_guard (strip line)).

(** Modelled on the words of the specification, to compare the builder
    with: a label marker is a bare identifier followed by a colon. The
    identifier characters are those of LLVM names. *)
Definition ident_char (c : ascii) : bool :=
  let n := nat_of_ascii c in
  ((65 <=? n) && (n <=? 90))%nat || ((97 <=? n) && (n <=? 122))%nat
  || isdigit c || bool_decide (c = "_"%char) || bool_decide (c = "."%char)
  || bool_decide (c = "-"%char) || bool_decide (c = "$"%char).

(** Every character of [s] satisfies [p]. *)
Fixpoint all_chars (p : ascii → bool) (s : string) : bool :=
  match s with
  | EmptyString => true
  | String c s' => p c && all_chars p s'
  end.

(** The specification's label marker: the stripped line is a non-empty
    run of identifier characters and then a colon. *)
Definition spec_label_marker (line : string) : bool :=
  let stripped := strip line in
  let name := before ":"%char stripped in
  negb (is_empty name) && all_chars ident_char name
  && bool_decide (stripped = name +:+ ":").

(** ** The verification pipeline *)

(** The three counts of [verify_protected_ir] and [verify_optimized_ir]. *)
Definition abort_calls (content : string) : nat :=
  Verifier.count_pattern content (Verifier.literal "call void @abort").
Definition duplicate_ids (content : string) : nat :=
  Verifier.count_pattern content (Verifier.prefix_digits "%dup_").
Definition verify_ids (content : string) : nat :=
  Verifier.count_pattern content (Verifier.prefix_digits "%verify_").

(** The protected unit has its three artifacts. *)
Definition artifacts_present (protected_ir : string) : Prop :=
  (0 < abort_calls protected_ir ∧ 0 < duplicate_ids protected_ir
   ∧ 0 < verify_ids protected_ir)%nat.

(** ** The injection loop *)

(** The test of the first branch of the loop body. *)
Definition is_target (x : string) : bool := contains "target triple" x.

(** How many entries of the output are the abort declaration. *)
Definition decl_count (out : list string) : nat :=
  length (filter (λ x, x = abort_decl) out).

(** The first character of a text, to tell entries apart. *)
Definition first_char (s : string) : option ascii :=
  match s with
  | EmptyString => None
  | String c _ => Some c
  end.

Section Steps.
Variable eligible : nat → string → option icmp_info.

(** One step of the loop on line [x] at index [i]: the entries it appends
    and the mode, flag and counters it moves to. *)
Inductive step_of (i : nat) (x : string) :
  mode → bool → counters → list string → mode → bool → counters → Prop :=
| step_target c :
    is_target x = true →
    step_of i x Scanning false c [x; abort_decl] Scanning true c
| step_protect added c info :
    is_target x && negb added = false →
    eligible i x = Some info →
    step_of i x Scanning added c
      [x; dup_line ("%dup_" +:+ str (register_counter c)) info;
       verify_line ("%verify_" +:+ str (S (register_counter c)))
                   ("%dup_" +:+ str (register_counter c)) info]
      (Copying info ("%verify_" +:+ str (S (register_counter c)))) added
      {| register_counter := S (S (register_counter c));
         block_counter := block_counter c |}
| step_copy added c :
    is_target x && negb added = false →
    eligible i x = None →
    step_of i x Scanning added c [x] Scanning added c
| step_split added c info verify_reg p4 p6 :
    consumes (result info) x = true →
    split x !! 4%nat = Some p4 →
    split x !! 6%nat = Some p6 →
    step_of i x (Copying info verify_reg) added c
      (split_lines verify_reg ("safe_" +:+ str (block_counter c))
         ("fault_" +:+ str (block_counter c))
         (rstrip_by (is_char ","%char) p4) p6 info)
      Scanning added
      {| register_counter := register_counter c;
         block_counter := S (block_counter c) |}
| step_through added c info verify_reg :
    consumes (result info) x = false →
    step_of i x (Copying info verify_reg) added c [x]
      (Copying info verify_reg) added c.

End Steps.


(** No line feed in the text. *)
Fixpoint newline_free (s : string) : bool :=
  match s with
  | EmptyString => true
  | String c s' => negb (bool_decide (c = "010"%char)) && newline_free s'
  end.

(** The shape of a line read by [readlines]: no line feed before its last
    character. *)
Definition line_shaped (e : string) : Prop :=
  ∃ w, newline_free w = true ∧ (e = w ∨ e = w +:+ nl).

(** A line that is no conditional branch. *)
Definition not_branch (x : string) : Prop := contains "br i1" x = false.

#[local] Instance not_branch_dec x : Decision (not_branch x).
Proof. unfold not_branch. apply _. Defined.

(** ** Selection and output size *)

(** The score of the comparison reaches the threshold. *)
Definition meets (threshold : Z) (c : Ranked.comparison) : Prop :=
  threshold ≤ Ranked.score c.

#[global] Instance meets_dec threshold c : Decision (meets threshold c).
Proof. unfold meets. apply _. Defined.

(** [f.writelines(output)] *)
Fixpoint writelines (out : list string) : string :=
  match out with
  | [] => EmptyString
  | x :: rest => x +:+ writelines rest
  end.

(** The line feeds of a text: the lines written. *)
Fixpoint newlines (s : string) : nat :=
  match s with
  | EmptyString => O
  | String c s' => ((if decide (c = "010"%char) then 1 else 0) + newlines s')%nat
  end.

(** The size of an output, each entry weighed by [wt]. *)
Fixpoint weight (wt : string → nat) (out : list string) : nat :=
  match out with
  | [] => O
  | x :: rest => (wt x + weight wt rest)%nat
  end.

(** The protected regions of a run do not overlap: no line that holds a
    comparison to protect is a target line; and from a comparison to
    protect up to the branch consuming its result (or the end of the input)
    no line holds another comparison to protect, nor, before the branch, is
    a target line. [waiting] is the comparison whose branch is awaited. *)
Fixpoint isolated (eligible : nat → string → option icmp_info) (i : nat)
    (lines : list string) (waiting : option icmp_info) : bool :=
  match lines with
  | [] => true
  | x :: rest =>
      match waiting with
      | None =>
          match eligible i x with
          | Some c => negb (is_target x) && isolated eligible (S i) rest (Some c)
          | None => isolated eligible (S i) rest None
          end
      | Some c =>
          negb (bool_decide (is_Some (eligible i x)))
          && (if consumes (result c) x then isolated eligible (S i) rest None
              else negb (is_target x) && isolated eligible (S i) rest (Some c))
      end
  end.

(** The comparison a mode of the loop is waiting on. *)
Definition waiting_of (m : mode) : option icmp_info :=
  match m with
  | Scanning => None
  | Copying c _ => Some c
  end.

(** Two runs of the loop on the same lines: the first is where the second
    is, or ahead of it inside a region the second does not protect. *)
Inductive related : mode → mode → Prop :=
| rel_scan : related Scanning Scanning
| rel_both c n1 n2 :
    related (Copying c ("%verify_" +:+ str n1)) (Copying c ("%verify_" +:+ str n2))
| rel_ahead c n1 : related (Copying c ("%verify_" +:+ str n1)) Scanning.

(** ** Whole runs *)

(** The unit with the abort declaration after its first target line. *)
Fixpoint with_decl (lines : list string) : list string :=
  match lines with
  | [] => []
  | x :: rest => if is_target x then x :: abort_decl :: rest else x :: with_decl rest
  end.

(** A conditional branch line has its seven tokens:
    [br i1 <cond>, label <true>, label <false>]. *)
Definition full_branch (x : string) : Prop :=
  contains "br i1" x = true → (7 ≤ length (split x))%nat.

(** An answer of the resolver, when there is one, is 0 or 1. *)
Definition binary_on (rec : string → gset string → option (option Z * gset string))
  : Prop :=
  ∀ l v z v', rec l v = Some (Some z, v') → z = 0 ∨ z = 1.

(** A unit whose labels are names: the builder sees no label in it, and
    the scorer misses its decision gate. *)
Definition named_label_unit : list string :=
  [ line "  %c = icmp eq i32 %x, 1";
    line "  br i1 %c, label %then, label %else";
    line "then:";
    line "  ret i32 1";
    line "else:";
    line "  ret i32 0" ].

(** The inner loops a mode has open: its branch is still to be split. *)
Definition pending (m : mode) : nat :=
  match m with
  | Scanning => 0
  | Copying _ _ => 1
  end.

(** The lines [seen] end with a label line of name [k] followed by the
    lines [seg], none of which is a label line. *)
Definition opened (seen : list string) (k : string) (seg : list string) : Prop :=
  ∃ pre l,
    seen = pre ++ l :: seg
    ∧ is_label_line l = true ∧ label_name l = k
    ∧ Forall (λ x, is_label_line x = false) seg.

(** The lines [rest] are none, or start with a label line. *)
Definition at_label (rest : list string) : Prop :=
  rest = [] ∨ ∃ l' rest', rest = l' :: rest' ∧ is_label_line l' = true.

(** A block [k |-> ls] that comes from the input: the key is the name,
    not empty, of a label line of the input, and the block is made of the
    plain lines among those that follow this label line, up to the next label
    line or the end of the input, in the input order. *)
Definition block_of_input (lines : list string) (k : string) (ls : list string)
  : Prop :=
  is_empty k = false
  ∧ ∃ seen seg rest,
      lines = seen ++ rest
      ∧ opened seen k seg
      ∧ at_label rest
      ∧ ls = filter (λ x, is_plain x = true) seg.

(** The state of the builder after the lines [seen]: the blocks filed were
    closed by a label line, and the open block has the plain lines met since
    its label line. *)
Definition bb_inv (seen : list string) (st : Ranked.bb_state) : Prop :=
  (∀ k ls, Ranked.blocks st !! k = Some ls →
           is_empty k = false
           ∧ ∃ s1 seg l' rest',
               seen = s1 ++ l' :: rest'
               ∧ opened s1 k seg
               ∧ is_label_line l' = true
               ∧ ls = filter (λ x, is_plain x = true) seg)
  ∧ (∀ k, Ranked.current_label st = Some k →
          ∃ seg, opened seen k seg
                 ∧ (is_empty k = false →
                    Ranked.current_instructions st
                    = filter (λ x, is_plain x = true) seg)).

(** A unit of blank lines, comments and plain instructions. *)
Definition plain_content : string :=
  line "; ModuleID = 'empty.c'" +:+ nl +:+ line "define i32 @f() {"
  +:+ line "  ret i32 0" +:+ "}".

(** An optimizer that strips everything, and a one-line original. *)
Definition stripping_optimizer (protected_ir : string) : option string :=
  Some (line "  ret i32 0").

Definition one_line_original : string := line "  ret i32 0".

(** The entry of the fault block that calls abort. *)
Definition abort_call_entry : string := "  call void @abort()" +:+ nl.

(** No white space in the text. *)
Definition no_space (s : string) : bool := all_chars (λ c, negb (isspace c)) s.

(** A token of [split]: not empty, no white space. *)
Definition is_token (t : string) : Prop := is_empty t = false ∧ no_space t = true.

(** The entries that open the safe and the fault block numbered [n]. *)
Definition safe_entry (n : nat) : string := ("safe_" +:+ str n) +:+ ":" +:+ nl.
Definition fault_entry (n : nat) : string := ("fault_" +:+ str n) +:+ ":" +:+ nl.

(** How many entries of the output are [e]. *)
Definition occurrences (e : string) (out : list string) : nat :=
  length (filter (λ x, x = e) out).

(** One when [n] is a block number used between the two counters. *)
Definition used_between (c c' : counters) (n : nat) : nat :=
  if bool_decide (block_counter c ≤ n < block_counter c')%nat then 1%nat else 0%nat.

(** At how many lines, numbered from [i], a lookup finds a comparison to
    protect. *)
Fixpoint hits (eligible : nat → string → option icmp_info) (i : nat)
    (lines : list string) : nat :=
  match lines with
  | [] => 0
  | x :: rest =>
      match eligible i x with Some _ => 1 | None => 0 end + hits eligible (S i) rest
  end%nat.

(** The lines [parse_icmp] accepts. *)
Definition comparison_lines (lines : list string) : list string :=
  filter (λ x, is_Some (parse_icmp x)) lines.

(** * Properties of the return-value resolver *)

Section ResolverFacts.
Import Ranked.
Variable blocks : gmap string (list string).

Lemma unvisited_mono (v v' : gset string) : v ⊆ v' → (unvisited blocks v' ≤ unvisited blocks v)%nat.
Proof. intros Hs. unfold unvisited. apply subseteq_size. set_solver. Qed.

Lemma unvisited_enter (label : string) (v : gset string) :
  label ∉ v → is_Some (blocks !! label) →
  (unvisited blocks ({[label]} ∪ v) < unvisited blocks v)%nat.
Proof.
  intros Hn Hs. unfold unvisited. apply subset_size.
  apply elem_of_dom in Hs. set_solver.
Qed.

Lemma unvisited_le_size (v : gset string) : (unvisited blocks v ≤ size blocks)%nat.
Proof.
  unfold unvisited. rewrite <- size_dom.
  apply subseteq_size. set_solver.
Qed.

Lemma follow_parts_returns rec v0 :
  returns_above rec v0 →
  ∀ parts v, v0 ⊆ v →
    ∃ r v', follow_parts rec parts v = Some (r, v') ∧ v ⊆ v'.
Proof.
  intros Hrec parts. induction parts as [|part parts IH]; intros v Hv; simpl.
  - eauto.
  - destruct (startswith "%" part); [|auto].
    destruct (Hrec (label_of part) v Hv) as (r & v' & -> & Hsub).
    destruct r as [z|]; [eauto|].
    destruct (IH v') as (r & v'' & -> & Hsub'); [set_solver|].
    exists r, v''. split; [done|set_solver].
Qed.

Lemma scan_block_returns rec v0 :
  returns_above rec v0 →
  ∀ block_lines v, v0 ⊆ v →
    ∃ r v', scan_block rec block_lines v = Some (r, v') ∧ v ⊆ v'.
Proof.
  intros Hrec ls. induction ls as [|line ls IH]; intros v Hv; simpl.
  - eauto.
  - do 4 (case_match; [solve [eauto]|]).
    case_match; [|auto].
    destruct (follow_parts_returns rec v0 Hrec (split line) v Hv)
      as (r & v' & -> & Hsub).
    destruct r as [z|]; [eauto|].
    destruct (IH v') as (r & v'' & -> & Hsub'); [set_solver|].
    exists r, v''. split; [done|set_solver].
Qed.

(** With more fuel than there are blocks left to enter, the resolver
    returns. *)
Lemma resolve_returns (fuel : nat) :
  ∀ label v, (unvisited blocks v < fuel)%nat →
    ∃ r v', resolve blocks fuel label v = Some (r, v') ∧ v ⊆ v'.
Proof.
  induction fuel as [|fuel IH]; intros label v Hlt; [lia|]. simpl.
  destruct (decide (label ∈ v)) as [Hin|Hnin]; [eauto|].
  destruct (blocks !! label) as [ls|] eqn:Hb; simpl.
  - assert (unvisited blocks ({[label]} ∪ v) < unvisited blocks v)%nat as Hdec
      by (apply unvisited_enter; eauto).
    destruct (scan_block_returns (resolve blocks fuel) ({[label]} ∪ v)) with
      (block_lines := ls) (v := {[label]} ∪ v) as (r & v' & -> & Hsub); [|done|].
    + intros l w Hw. apply IH.
      pose proof (unvisited_mono _ _ Hw). lia.
    + exists r, v'. split; [done|set_solver].
  - exists None, ({[label]} ∪ v). split; [done|set_solver].
Qed.

Lemma reach_trans l m n : reach blocks l m → reach blocks m n → reach blocks l n.
Proof.
  intros Hlm Hmn. revert Hlm.
  induction Hmn as [m|m k line part Hmk IH Hline Hbr Hpart Hs]; intros Hlm; [done|].
  apply (reach_br blocks l k line part); auto.
Qed.

Lemma follow_parts_unknown rec parts :
  (∀ part, part ∈ parts → startswith "%" part = true → unknown_on rec (label_of part)) →
  ∀ v r v', follow_parts rec parts v = Some (r, v') → r = None.
Proof.
  induction parts as [|part parts IH]; intros Hrec v r v'; simpl.
  - congruence.
  - destruct (startswith "%" part) eqn:Hp.
    + destruct (rec (label_of part) v) as [[[z|] w]|] eqn:Hr; [|apply IH|done].
      * apply (Hrec part) in Hr; [done|set_solver|done].
      * intros q Hq. apply Hrec. set_solver.
    + apply IH. intros q Hq. apply Hrec. set_solver.
Qed.

Lemma scan_block_unknown rec block_lines :
  (∀ line, line ∈ block_lines → yields_constant line = false) →
  (∀ line part, line ∈ block_lines → contains "br label" line = true →
     part ∈ split line → startswith "%" part = true →
     unknown_on rec (label_of part)) →
  ∀ v r v', scan_block rec block_lines v = Some (r, v') → r = None.
Proof.
  induction block_lines as [|line ls IH]; intros Hc Hrec v r v'; simpl.
  - congruence.
  - assert (yields_constant line = false) as Hy by (apply Hc; set_solver).
    unfold yields_constant in Hy.
    apply orb_false_iff in Hy as [Hy H4].
    apply orb_false_iff in Hy as [Hy H3].
    apply orb_false_iff in Hy as [H1 H2].
    rewrite H1, H2, H3, H4.
    assert (∀ w q w', scan_block rec ls w = Some (q, w') → q = None) as IH'.
    { apply IH; [intros; apply Hc; set_solver|].
      intros l p Hl. apply Hrec. set_solver. }
    destruct (contains "br label" line) eqn:Hbr; [|apply IH'].
    destruct (follow_parts rec (split line) v) as [[[z|] w]|] eqn:Hf;
      [|apply IH'|done].
    apply follow_parts_unknown in Hf; [done|].
    intros p Hp Hs. apply (Hrec line p); [set_solver|done..].
Qed.

Lemma resolve_unknown (fuel : nat) :
  ∀ label,
    (∀ l line, reach blocks label l → line ∈ default [] (blocks !! l) →
               yields_constant line = false) →
    unknown_on (resolve blocks fuel) label.
Proof.
  induction fuel as [|fuel IH]; intros label Hno v r v'; simpl; [done|].
  destruct (decide (label ∈ v)); [congruence|].
  apply scan_block_unknown.
  - intros line Hl. apply (Hno label); [constructor|done].
  - intros line part Hl Hbr Hp Hs. apply IH.
    intros l line' Hreach. apply Hno.
    eapply reach_trans; [|exact Hreach].
    eapply reach_br; eauto using reach_here.
Qed.

(** A label without a block resolves to unknown. *)
Lemma find_return_value_no_block (label : string) :
  blocks !! label = None → find_return_value blocks label = None.
Proof.
  intros Hb. unfold find_return_value. simpl.
  destruct (decide (label ∈ (∅ : gset string))) as [Hin|_]; [set_solver|].
  by rewrite Hb.
Qed.

(** More fuel does not change an answer. *)
Lemma follow_parts_ext rec rec' :
  (∀ l v x, rec l v = Some x → rec' l v = Some x) →
  ∀ parts v x, follow_parts rec parts v = Some x → follow_parts rec' parts v = Some x.
Proof.
  intros Hext parts. induction parts as [|part parts IH]; intros v x; simpl; [done|].
  destruct (startswith "%" part); [|apply IH].
  destruct (rec (label_of part) v) as [[[z|] w]|] eqn:Hr; [| |done].
  - rewrite (Hext _ _ _ Hr). done.
  - rewrite (Hext _ _ _ Hr). apply IH.
Qed.

Lemma scan_block_ext rec rec' :
  (∀ l v x, rec l v = Some x → rec' l v = Some x) →
  ∀ ls v x, scan_block rec ls v = Some x → scan_block rec' ls v = Some x.
Proof.
  intros Hext ls. induction ls as [|ln ls IH]; intros v x; simpl; [done|].
  do 4 (case_match; [done|]).
  case_match; [|apply IH].
  destruct (follow_parts rec (split ln) v) as [[[z|] w]|] eqn:Hf; [| |done].
  - rewrite (follow_parts_ext rec rec' Hext _ _ _ Hf). done.
  - rewrite (follow_parts_ext rec rec' Hext _ _ _ Hf). apply IH.
Qed.

Lemma resolve_more_fuel (fuel : nat) : ∀ label v x,
  resolve blocks fuel label v = Some x → resolve blocks (S fuel) label v = Some x.
Proof.
  induction fuel as [|fuel IH]; intros label v x; [done|].
  change (resolve blocks (S (S fuel)) label v)
    with (if decide (label ∈ v) then Some (None, v)
          else scan_block (resolve blocks (S fuel))
                 (default [] (blocks !! label)) ({[label]} ∪ v)).
  change (resolve blocks (S fuel) label v)
    with (if decide (label ∈ v) then Some (None, v)
          else scan_block (resolve blocks fuel)
                 (default [] (blocks !! label)) ({[label]} ∪ v)).
  destruct (decide (label ∈ v)); [done|].
  apply scan_block_ext. exact IH.
Qed.

(** The answer of [find_return_value] is the answer with any larger fuel. *)
Lemma resolve_fuel_enough (fuel : nat) (label : string) :
  (size blocks < fuel)%nat →
  resolve blocks fuel label ∅ = resolve blocks (S (size blocks)) label ∅.
Proof.
  intros Hlt.
  destruct (resolve_returns (S (size blocks)) label ∅) as (r & v & Hr & _).
  { pose proof (unvisited_le_size ∅). lia. }
  rewrite Hr.
  replace fuel with ((fuel - S (size blocks)) + S (size blocks))%nat by lia.
  induction (fuel - S (size blocks))%nat as [|k IHk]; [done|].
  by apply resolve_more_fuel in IHk.
Qed.

End ResolverFacts.

(** C6. The return-value resolver returns on every block map, cycles
    included: with the fuel [find_return_value] gives it, one more than the
    number of blocks, [resolve] never runs out, whatever the label and the
    visited set. A label already in the visited set gives unknown at once
    and leaves the set as it is; and from a label that reaches no return or
    store of a constant along [br label] lines (such as a cycle of
    branches), the answer is unknown. *)
Theorem resolve_terminates (blocks : gmap string (list string)) (label : string)
    (visited : gset string) :
  ∃ r visited',
    Ranked.resolve blocks (S (size blocks)) label visited = Some (r, visited')
    ∧ (label ∈ visited → r = None ∧ visited' = visited)
    ∧ ((∀ l line, reach blocks label l → line ∈ default [] (blocks !! l) →
                  yields_constant line = false) →
       r = None ∧ Ranked.find_return_value blocks label = None).
Proof.
  destruct (resolve_returns blocks (S (size blocks)) label visited)
    as (r & v' & Hr & _).
  { pose proof (unvisited_le_size blocks visited). lia. }
  exists r, v'. split; [done|]. split.
  - intros Hin. simpl in Hr.
    destruct (decide (label ∈ visited)); [|done]. by inversion Hr.
  - intros Hno. split.
    + by apply (resolve_unknown blocks _ label Hno) in Hr.
    + unfold Ranked.find_return_value.
      destruct (Ranked.resolve blocks (S (size blocks)) label ∅) as [[q w]|] eqn:Hq;
        [|done].
      by apply (resolve_unknown blocks _ label Hno) in Hq.
Qed.

(** * Properties of the block map builder *)

Section BlockMapFacts.
Import Ranked.

Lemma bb_step_label st line :
  is_label_line line = true →
  bb_step st line =
    {| blocks := flush st; current_label := Some (label_name line);
       current_instructions := [] |}.
Proof.
  unfold is_label_line, bb_step. intros [Hg Hc]%andb_true_iff.
  by rewrite Hg, Hc.
Qed.

Lemma bb_step_plain st line :
  is_plain line = true →
  bb_step st line =
    if truthy (current_label st)
    then {| blocks := blocks st; current_label := current_label st;
            current_instructions := current_instructions st ++ [line] |}
    else st.
Proof.
  unfold is_plain, bb_step. intros Hg%negb_true_iff. by rewrite Hg.
Qed.

Lemma bb_step_other st line :
  is_label_line line = false → is_plain line = false → bb_step st line = st.
Proof.
  unfold is_label_line, is_plain, bb_step. intros Hl Hp%negb_false_iff.
  rewrite Hp in *. simpl in Hl. by rewrite Hl.
Qed.

(** The three cases of the loop body. *)
Lemma bb_step_cases st line :
  (is_label_line line = true ∧
     bb_step st line = {| blocks := flush st; current_label := Some (label_name line);
                          current_instructions := [] |})
  ∨ (is_label_line line = false ∧ blocks (bb_step st line) = blocks st
     ∧ current_label (bb_step st line) = current_label st).
Proof.
  destruct (is_label_line line) eqn:Hl.
  - left. split; [done|]. by apply bb_step_label.
  - right. split; [done|].
    destruct (is_plain line) eqn:Hp.
    + rewrite bb_step_plain by done. by destruct (truthy _).
    + by rewrite bb_step_other.
Qed.

(** Without an open block, lines that open none leave the state alone. *)
Lemma fold_before_first_label pre st :
  truthy (current_label st) = false →
  Forall (λ x, is_label_line x = false) pre →
  fold_left bb_step pre st = st.
Proof.
  intros Ht Hpre. induction Hpre as [|x pre Hx _ IH]; [done|]. simpl.
  assert (bb_step st x = st) as ->; [|done].
  destruct (is_plain x) eqn:Hp.
  - rewrite bb_step_plain by done. by rewrite Ht.
  - by apply bb_step_other.
Qed.

(** Plain lines are appended to the open block, in order. *)
Lemma fold_plain body : ∀ st,
  truthy (current_label st) = true →
  Forall (λ x, is_plain x = true) body →
  fold_left bb_step body st =
    {| blocks := blocks st; current_label := current_label st;
       current_instructions := current_instructions st ++ body |}.
Proof.
  induction body as [|x body IH]; intros st Ht Hb; simpl.
  - rewrite app_nil_r. by destruct st.
  - inversion Hb as [|? ? Hx Hb']; subst.
    rewrite bb_step_plain by done. rewrite Ht.
    rewrite IH by done. simpl. by rewrite <- app_assoc.
Qed.

Lemma flush_lookup_other st name :
  current_label st ≠ Some name → flush st !! name = blocks st !! name.
Proof.
  unfold flush. intros Hne.
  destruct (current_label st) as [l|]; [|done].
  destruct (is_empty l); [done|].
  apply lookup_insert_ne. congruence.
Qed.

(** A key is not touched by the lines after its block, as long as none of
    them opens a block of the same name. *)
Lemma flush_fold_other name rest : ∀ st,
  current_label st ≠ Some name →
  Forall (λ x, is_label_line x = true → label_name x ≠ name) rest →
  flush (fold_left bb_step rest st) !! name = blocks st !! name.
Proof.
  induction rest as [|x rest IH]; intros st Hne Hr; simpl.
  - by apply flush_lookup_other.
  - inversion Hr as [|? ? Hx Hr']; subst.
    destruct (bb_step_cases st x) as [[Hl ->]|(Hl & Hb & Hc)].
    + rewrite IH; [|simpl; specialize (Hx Hl); congruence|done].
      simpl. by apply flush_lookup_other.
    + rewrite IH; [by rewrite Hb|by rewrite Hc|done].
Qed.

(** The empty string is never a key. *)
Lemma flush_no_empty_key st :
  blocks st !! EmptyString = None → flush st !! EmptyString = None.
Proof.
  unfold flush. intros Hb.
  destruct (current_label st) as [l|]; [|done].
  destruct l; [done|]. simpl. by rewrite lookup_insert_ne.
Qed.

Lemma fold_no_empty_key lines : ∀ st,
  blocks st !! EmptyString = None →
  blocks (fold_left bb_step lines st) !! EmptyString = None.
Proof.
  induction lines as [|x lines IH]; intros st Hb; [done|]. simpl.
  apply IH.
  destruct (bb_step_cases st x) as [[_ ->]|(_ & -> & _)]; [|done].
  simpl. by apply flush_no_empty_key.
Qed.

Lemma build_block_map_no_empty_key lines :
  build_block_map lines !! EmptyString = None.
Proof.
  unfold build_block_map. apply flush_no_empty_key, fold_no_empty_key. done.
Qed.

Lemma truthy_label name : is_empty name = false → truthy (Some name) = true.
Proof. simpl. by intros ->. Qed.

(** The state after the lines of one block. *)
Lemma fold_block st l body :
  is_label_line l = true → is_empty (label_name l) = false →
  Forall (λ x, is_plain x = true) body →
  fold_left bb_step (l :: body) st =
    {| blocks := flush st; current_label := Some (label_name l);
       current_instructions := body |}.
Proof.
  intros Hl Hn Hb. simpl. rewrite bb_step_label by done.
  rewrite fold_plain; [done| |done]. by apply truthy_label.
Qed.

End BlockMapFacts.

(** C2, as stated, fails: a named label such as [entry:] is a bare
    identifier followed by a colon, and the builder opens no block for it. *)
Lemma block_map_misses_named_label :
  ¬ (∀ pre l body rest,
       spec_label_marker l = true →
       Forall (λ x, spec_label_marker x = false) body →
       (rest = [] ∨ ∃ l' rest', rest = l' :: rest' ∧ spec_label_marker l' = true) →
       Ranked.build_block_map (pre ++ l :: body ++ rest) !! label_name l = Some body).
Proof.
  intros H.
  specialize (H [] ("entry:" +:+ nl) ["  ret i32 1" +:+ nl] []).
  assert (Ranked.build_block_map
            ([] ++ ("entry:" +:+ nl) :: ["  ret i32 1" +:+ nl] ++ [])
          !! label_name ("entry:" +:+ nl) = None) as Hnone by (vm_compute; reflexivity).
  rewrite H in Hnone; [discriminate|vm_compute; reflexivity| |by left].
  repeat constructor.
Qed.

(** C2, amended. A block opens at every line whose stripped text starts
    with a digit or contains [safe_] or [fault_], and contains a colon; its
    key is the text before the first colon. When that key is not empty, the
    lines that follow, up to the next such line (or the end of the input),
    are the block's lines, if they are plain (none starts with a digit or
    contains [safe_] or [fault_]) and no later line opens a block of the same
    key. Lines before the first label line are left out of the map. *)
Theorem build_block_map_blocks (pre : list string) (l : string)
    (body rest : list string) :
  is_label_line l = true →
  is_empty (label_name l) = false →
  Forall (λ x, is_plain x = true) body →
  (rest = [] ∨ ∃ l' rest', rest = l' :: rest' ∧ is_label_line l' = true) →
  Forall (λ x, is_label_line x = true → label_name x ≠ label_name l) rest →
  Ranked.build_block_map (pre ++ l :: body ++ rest) !! label_name l = Some body
  ∧ (Forall (λ x, is_label_line x = false) pre →
     Ranked.build_block_map (pre ++ l :: body ++ rest)
     = Ranked.build_block_map (l :: body ++ rest)).
Proof.
  intros Hl Hn Hbody Hrest Hlater. split.
  - unfold Ranked.build_block_map.
    rewrite fold_left_app.
    set (st0 := fold_left Ranked.bb_step pre Ranked.bb_init).
    change (l :: body ++ rest) with ((l :: body) ++ rest).
    rewrite fold_left_app, fold_block by done.
    destruct Hrest as [->|(l' & rest' & -> & Hl')].
    + simpl. unfold Ranked.flush at 1. simpl. rewrite Hn.
      apply lookup_insert_eq.
    + simpl. rewrite bb_step_label by done.
      inversion Hlater as [|? ? Hx Hr']; subst.
      rewrite flush_fold_other; [|simpl; specialize (Hx Hl'); congruence|done].
      simpl. unfold Ranked.flush at 1. simpl. rewrite Hn.
      apply lookup_insert_eq.
  - intros Hpre. unfold Ranked.build_block_map.
    rewrite fold_left_app.
    by rewrite (fold_before_first_label pre Ranked.bb_init).
Qed.

(** * Properties of the scorer *)

Section ScorerFacts.
Import Ranked.

(** The score once the consuming branch is found and both of its targets
    resolve. *)
Lemma score_branch_resolved lines line p4 p6 (a b : Z) :
  split line !! 4%nat = Some p4 →
  split line !! 6%nat = Some p6 →
  find_return_value (build_block_map lines) (label_of p4) = Some a →
  find_return_value (build_block_map lines) (label_of p6) = Some b →
  score_branch (build_block_map lines) line = Ok (if decide (a = b) then 30 else 100).
Proof.
  intros H4 H6 Ha Hb. unfold score_branch, item. rewrite H4. simpl.
  assert (6 < length (split line))%nat as Hlen by (by eapply lookup_lt_Some).
  apply Nat.ltb_lt in Hlen. rewrite Hlen, H6. simpl.
  destruct (is_empty (label_of p6)) eqn:He.
  { destruct (label_of p6); [|done].
    rewrite find_return_value_no_block in Hb; [done|].
    apply build_block_map_no_empty_key. }
  simpl. rewrite Ha, Hb.
  rewrite !bool_decide_eq_true_2 by done. simpl.
  destruct (decide (a = b)) as [->|Hne].
  - rewrite bool_decide_eq_false_2; [done|]. intros Hc. by apply Hc.
  - rewrite bool_decide_eq_true_2; [done|]. congruence.
Qed.

Lemma cycle_blocks_no_constant (l line : string) :
  line ∈ default [] (cycle_blocks !! l) → yields_constant line = false.
Proof.
  unfold cycle_blocks. intros Hin.
  destruct (decide (l = "1")) as [->|H1].
  { rewrite lookup_insert_eq in Hin. simpl in Hin.
    apply list_elem_of_singleton in Hin as ->. vm_compute. reflexivity. }
  rewrite lookup_insert_ne in Hin by done.
  destruct (decide (l = "2")) as [->|H2].
  { rewrite lookup_insert_eq in Hin. simpl in Hin.
    apply list_elem_of_singleton in Hin as ->. vm_compute. reflexivity. }
  rewrite lookup_insert_ne, lookup_empty in Hin by done.
  simpl in Hin. by apply elem_of_nil in Hin.
Qed.

End ScorerFacts.

(** C6, at the two-block cycle [1 -> 2 -> 1]. *)
Lemma resolve_terminates_witness :
  ∃ r visited',
    Ranked.resolve cycle_blocks (S (size cycle_blocks)) "1" ∅ = Some (r, visited')
    ∧ r = None ∧ Ranked.find_return_value cycle_blocks "1" = None.
Proof.
  destruct (resolve_terminates cycle_blocks "1" ∅) as (r & v & Hr & _ & Hno).
  exists r, v. split; [exact Hr|].
  apply Hno. intros l ln _ Hin. exact (cycle_blocks_no_constant l ln Hin).
Defined.

(** When the first line of the window that holds [br i1] and the text of
    the result's name has targets that resolve to 1 and 0, in either order,
    the score is 100. *)
Lemma score_decision_gate (cmp_result : string) (lines : list string)
    (line_idx : nat) (br p4 p6 : string) (a b : Z) :
  List.find (consumes cmp_result) (Ranked.window lines line_idx) = Some br →
  split br !! 4%nat = Some p4 →
  split br !! 6%nat = Some p6 →
  Ranked.find_return_value (Ranked.build_block_map lines) (Ranked.label_of p4) = Some a →
  Ranked.find_return_value (Ranked.build_block_map lines) (Ranked.label_of p6) = Some b →
  (a = 1 ∧ b = 0) ∨ (a = 0 ∧ b = 1) →
  Ranked.score_comparison cmp_result lines line_idx = Ok 100.
Proof.
  intros Hfind H4 H6 Ha Hb Hab. unfold Ranked.score_comparison. rewrite Hfind.
  rewrite (score_branch_resolved lines br p4 p6 a b) by done.
  destruct (decide (a = b)); [lia|done].
Qed.

Lemma score_decision_gate_witness :
  Ranked.score_comparison "%b" nested_unit 1 = Ok 100.
Proof.
  apply (score_decision_gate "%b" nested_unit 1
           (line "  br i1 %b, label %3, label %2") "%3," "%2" 1 0);
    solve [vm_compute; reflexivity | left; split; reflexivity].
Defined.

(** C4 fails on the code. In [shadowed_unit] the branch on [%1] is the
    fourth line of the window of the comparison [%1], and its targets [11]
    and [12] resolve to 1 and 0: a decision gate. The scorer stops at the
    second line of the window, the branch on [%2], because the text [%1]
    occurs in its label [%10]; of the targets [10] and [13] of that branch
    only [13] resolves, and the score is 30, not 100. *)
Theorem score_decision_gate_shadowed :
  Ranked.window shadowed_unit 0 !! 3%nat
  = Some (line "  br i1 %1, label %11, label %12")
  ∧ Ranked.find_return_value (Ranked.build_block_map shadowed_unit) "11" = Some 1
  ∧ Ranked.find_return_value (Ranked.build_block_map shadowed_unit) "12" = Some 0
  ∧ List.find (consumes "%1") (Ranked.window shadowed_unit 0)
    = Some (line "  br i1 %2, label %10, label %13")
  ∧ Ranked.find_return_value (Ranked.build_block_map shadowed_unit) "10" = None
  ∧ Ranked.find_return_value (Ranked.build_block_map shadowed_unit) "13" = Some 0
  ∧ Ranked.score_comparison "%1" shadowed_unit 0 = Ok 30.
Proof. repeat split; vm_compute; reflexivity. Qed.

(** C1, as stated, fails: both targets of the branch return 0 and the
    score is 30, not 0. *)
Lemma score_same_return_not_zero :
  ¬ (∀ cmp_result lines line_idx br p4 p6 (c : Z),
       List.find (consumes cmp_result) (Ranked.window lines line_idx) = Some br →
       split br !! 4%nat = Some p4 →
       split br !! 6%nat = Some p6 →
       Ranked.find_return_value (Ranked.build_block_map lines) (Ranked.label_of p4) = Some c →
       Ranked.find_return_value (Ranked.build_block_map lines) (Ranked.label_of p6) = Some c →
       Ranked.score_comparison cmp_result lines line_idx = Ok 0).
Proof.
  intros H.
  specialize (H "%c" same_return_unit 0%nat
                (line "  br i1 %c, label %1, label %2") "%1," "%2" 0).
  assert (Ranked.score_comparison "%c" same_return_unit 0 = Ok 30) as Hs
    by (vm_compute; reflexivity).
  rewrite H in Hs; [discriminate|vm_compute; reflexivity..].
Qed.

(** Why the amended C1 speaks of the first line that holds the two texts.
    In [shadowed_same_unit] the branch on [%1] is the fourth line of the
    window and both of its targets resolve to 0, but the scorer stops at the
    first line of the window, the branch on [%0], because the text [%1]
    occurs in its label [%10]; the targets [10] and [13] of that branch
    resolve to 1 and 0, and the score is 100. *)
Lemma score_same_return_shadowed :
  Ranked.window shadowed_same_unit 0 !! 3%nat
  = Some (line "  br i1 %1, label %11, label %12")
  ∧ Ranked.find_return_value (Ranked.build_block_map shadowed_same_unit) "11" = Some 0
  ∧ Ranked.find_return_value (Ranked.build_block_map shadowed_same_unit) "12" = Some 0
  ∧ List.find (consumes "%1") (Ranked.window shadowed_same_unit 0)
    = Some (line "  br i1 %0, label %10, label %13")
  ∧ Ranked.score_comparison "%1" shadowed_same_unit 0 = Ok 100.
Proof. repeat split; vm_compute; reflexivity. Qed.

(** C1, amended. When the branch consuming the comparison is the first
    line of the window that holds [br i1] and the text of the result's name,
    and its two targets resolve to the same constant, the score is 30: the
    scorer gives 30 as soon as one side resolves, unless both resolve and
    differ. The statement holds of whatever line [br] is the first to hold
    the two texts. *)
Theorem score_same_return (cmp_result : string) (lines : list string)
    (line_idx : nat) (br p4 p6 : string) (c : Z) :
  List.find (consumes cmp_result) (Ranked.window lines line_idx) = Some br →
  split br !! 4%nat = Some p4 →
  split br !! 6%nat = Some p6 →
  Ranked.find_return_value (Ranked.build_block_map lines) (Ranked.label_of p4) = Some c →
  Ranked.find_return_value (Ranked.build_block_map lines) (Ranked.label_of p6) = Some c →
  Ranked.score_comparison cmp_result lines line_idx = Ok 30.
Proof.
  intros Hfind H4 H6 Ha Hb. unfold Ranked.score_comparison. rewrite Hfind.
  rewrite (score_branch_resolved lines br p4 p6 c c) by done.
  by destruct (decide (c = c)).
Qed.

Lemma score_same_return_witness :
  Ranked.score_comparison "%c" same_return_unit 0 = Ok 30.
Proof.
  apply (score_same_return "%c" same_return_unit 0
           (line "  br i1 %c, label %1, label %2") "%1," "%2" 0);
    vm_compute; reflexivity.
Defined.

(** C10. Return and store lines are matched by substring: a block whose
    only statement is [ret i32 10] resolves to the constant 1, and so does
    one that stores 16. *)
Theorem resolver_matches_prefix_of_constant :
  ∃ lines label,
    Ranked.build_block_map lines !! label = Some [line "  ret i32 10"]
    ∧ Ranked.find_return_value (Ranked.build_block_map lines) label = Some 1
    ∧ Ranked.find_return_value
        (Ranked.build_block_map [line "7:"; line "  store i32 16, i32* %3, align 4"]) "7"
      = Some 1.
Proof.
  exists [line "5:"; line "  ret i32 10"], "5".
  repeat split; vm_compute; reflexivity.
Qed.

(** C2 amended, at a unit with a header line, a numeric block and a
    synthetic one. *)
Lemma build_block_map_blocks_witness :
  Ranked.build_block_map
    ([line "define i32 @f() {"] ++ line "5:" :: [line "  ret i32 1"]
       ++ [line "safe_100:"; line "  ret i32 0"])
  !! label_name (line "5:") = Some [line "  ret i32 1"].
Proof.
  apply (build_block_map_blocks [line "define i32 @f() {"] (line "5:")
           [line "  ret i32 1"] [line "safe_100:"; line "  ret i32 0"]).
  - vm_compute; reflexivity.
  - vm_compute; reflexivity.
  - repeat constructor.
  - right. eexists _, _. split; [reflexivity|vm_compute; reflexivity].
  - repeat constructor; vm_compute; congruence.
Defined.

(** * The injector on concrete units *)

(** C9. In [nested_unit] at threshold 30 both comparisons are selected,
    the second lies between the first and the branch consuming the first,
    and the injector copies it through: the output is the input with the
    first comparison protected only, the counters have advanced for one
    comparison, and no entry defines a duplicate or a verification of
    [%b]. *)
Theorem nested_comparison_copied_through :
  ∃ lines threshold ca cb out self',
    Ranked.selected lines threshold = Ok [ca; cb]
    ∧ (Ranked.line_num ca < Ranked.line_num cb)%nat
    ∧ List.find (consumes (result (Ranked.info ca)))
        (drop (S (Ranked.line_num cb)) lines) = lines !! 2%nat
    ∧ consumes (result (Ranked.info ca)) (default EmptyString (lines !! 2%nat)) = true
    ∧ Ranked.process_file lines threshold Ranked.init = Ok (out, self')
    ∧ out = take 1 lines
            ++ [dup_line "%dup_1000" (Ranked.info ca);
                verify_line "%verify_1001" "%dup_1000" (Ranked.info ca)]
            ++ take 1 (drop 1 lines)
            ++ split_lines "%verify_1001" "safe_100" "fault_100" "%1" "%2" (Ranked.info ca)
            ++ drop 3 lines
    ∧ Ranked.ctrs self' = {| register_counter := 1002; block_counter := 101 |}
    ∧ Forall (λ o, contains ("icmp eq i1 " +:+ result (Ranked.info cb)) o = false) out
    ∧ Forall (λ o, contains "icmp eq i32 %y, 2" o = true → lines !! 1%nat = Some o) out
    ∧ Forall (λ o, contains ("br i1 " +:+ result (Ranked.info cb)) o = true →
                   lines !! 4%nat = Some o) out.
Proof.
  exists nested_unit, 30.
  eexists _, _, _, _.
  split; [vm_compute; reflexivity|].
  split; [vm_compute; lia|].
  split; [vm_compute; reflexivity|].
  split; [vm_compute; reflexivity|].
  split; [vm_compute; reflexivity|].
  split; [vm_compute; reflexivity|].
  split; [vm_compute; reflexivity|].
  split; [|split].
  - repeat (constructor; [vm_compute; reflexivity|]). constructor.
  - repeat (constructor; [vm_compute; intros ?; first [discriminate | reflexivity]|]).
    constructor.
  - repeat (constructor; [vm_compute; intros ?; first [discriminate | reflexivity]|]).
    constructor.
Qed.

(** C7, the failing input. A line that contains [br i1] and the result of
    a comparison but has fewer than five tokens makes both protectors raise
    [IndexError]: the ranked one in [score_comparison] at [parts[4]] (and,
    were the comparison selected, in the injector), the basic one in the
    injector at [br_parts[4]]. No output is written. *)
Theorem process_file_raises_on_short_branch :
  Ranked.process_file short_branch_unit 50 Ranked.init = Raised IndexError
  ∧ Ranked.score_comparison "%c" short_branch_unit 0 = Raised IndexError
  ∧ Basic.process_file short_branch_unit init_counters = Raised IndexError
  ∧ Basic.process_file
      [line "  %c = icmp eq i32 %a, %b"; line "  br i1 %c, label %1"] init_counters
    = Raised IndexError.
Proof. repeat split; vm_compute; reflexivity. Qed.

(** * Properties of the verification pipeline *)

Section PipelineFacts.
Import Verifier.
Variable compile_with_optimization : string → option string.

Lemma verify_protected_ir_true protected_ir r :
  (verify_protected_ir protected_ir r).1 = true ↔ artifacts_present protected_ir.
Proof.
  unfold verify_protected_ir, artifacts_present, verify_abort_present,
    verify_duplicates_present, verify_verification_present,
    abort_calls, duplicate_ids, verify_ids.
  repeat case_bool_decide; simpl; split; intros; try done; lia.
Qed.

Lemma verify_optimized_ir_spec optimized_ir r :
  let p := verify_optimized_ir optimized_ir r in
  abort_calls_optimized p.2 = abort_calls optimized_ir
  ∧ (p.1 = true ↔ (0 < abort_calls optimized_ir)%nat).
Proof.
  unfold verify_optimized_ir, verify_abort_present, verify_duplicates_present,
    abort_calls.
  case_bool_decide; simpl; (split; [done|]); split; intros; try done; lia.
Qed.

(** When the original unit has at least one counted line, the pipeline
    passes exactly when the artifacts are present and an abort call
    survives the optimizer. *)
Lemma run_verification_pass original_ir protected_ir :
  count_lines original_ir ≠ 0%nat →
  (run_verification compile_with_optimization original_ir protected_ir init).1 = Ok true
  ↔ artifacts_present protected_ir
    ∧ ∃ optimized_ir, compile_with_optimization protected_ir = Some optimized_ir
                      ∧ (0 < abort_calls optimized_ir)%nat.
Proof.
  intros Horig. unfold run_verification.
  pose proof (verify_protected_ir_true protected_ir init) as Hp.
  destruct (verify_protected_ir protected_ir init) as [ok r] eqn:Hv. simpl in Hp.
  destruct ok; simpl.
  2:{ split; [done|]. intros [Ha _]. apply Hp in Ha. done. }
  destruct (compile_with_optimization protected_ir) as [o|]; simpl.
  2:{ split; [done|]. intros [_ (o & Ho & _)]. done. }
  pose proof (verify_optimized_ir_spec o r) as [Hn Ho].
  destruct (verify_optimized_ir o r) as [ok r'] eqn:Hv'. simpl in Hn, Ho.
  destruct ok; simpl.
  2:{ split; [done|]. intros [_ (o' & Heq & Hpos)].
      inversion Heq; subst o'. apply Ho in Hpos. done. }
  assert (0 < abort_calls_optimized r')%nat as Hpos by (rewrite Hn; by apply Ho).
  unfold print_summary.
  rewrite bool_decide_eq_false_2 by done.
  simpl. rewrite bool_decide_eq_true_2 by done. simpl.
  split; [|done]. intros _. split; [by apply Hp|].
  exists o. split; [done|]. by apply Ho.
Qed.

(** When no abort call survives the optimizer, the pipeline fails and
    records zero surviving calls. *)
Lemma run_verification_stripped original_ir protected_ir optimized_ir :
  artifacts_present protected_ir →
  compile_with_optimization protected_ir = Some optimized_ir →
  abort_calls optimized_ir = 0%nat →
  let p := run_verification compile_with_optimization original_ir protected_ir init in
  p.1 = Ok false ∧ abort_calls_optimized p.2 = 0%nat.
Proof.
  intros Ha Hc Hz. unfold run_verification.
  apply (verify_protected_ir_true protected_ir init) in Ha.
  destruct (verify_protected_ir protected_ir init) as [ok r] eqn:Hv. simpl in Ha.
  subst ok. simpl. rewrite Hc.
  pose proof (verify_optimized_ir_spec optimized_ir r) as [Hn Ho].
  destruct (verify_optimized_ir optimized_ir r) as [ok r'] eqn:Hv'. simpl in Hn, Ho.
  destruct ok; simpl.
  - assert (0 < abort_calls optimized_ir)%nat by (by apply Ho). lia.
  - split; [done|]. by rewrite Hn, Hz.
Qed.

End PipelineFacts.

(** C5, the failing input. All three artifacts are in the protected unit
    and an abort call survives the optimizer, yet the pipeline does not
    pass: [print_summary] divides by the line count of the original unit,
    which is zero, and [ZeroDivisionError] is raised before
    [verification_passed] is set. *)
Theorem run_verification_raises_on_empty_original :
  artifacts_present protected_sample
  ∧ (∃ optimized_ir, keeping_optimizer protected_sample = Some optimized_ir
                     ∧ (0 < abort_calls optimized_ir)%nat)
  ∧ Verifier.count_lines comment_only_original = 0%nat
  ∧ (Verifier.run_verification keeping_optimizer comment_only_original
       protected_sample Verifier.init).1 = Raised ZeroDivisionError
  ∧ Verifier.verification_passed
      (Verifier.run_verification keeping_optimizer comment_only_original
         protected_sample Verifier.init).2 = false.
Proof.
  split; [|split; [|split; [|split]]].
  - unfold artifacts_present. vm_compute. lia.
  - eexists. split; [reflexivity|]. vm_compute. lia.
  - vm_compute. reflexivity.
  - vm_compute. reflexivity.
  - vm_compute. reflexivity.
Qed.

(** * Properties of the injection loop *)

Section InjectorFacts.
Variable eligible : nat → string → option icmp_info.

Lemma emit_ok ls r out c' :
  emit ls r = Ok (out, c') ↔ ∃ out0, r = Ok (out0, c') ∧ out = ls ++ out0.
Proof.
  unfold emit. destruct r as [[o c]|e]; simpl.
  - split.
    + intros [= <- <-]. eauto.
    + intros (o' & [= <- <-] & ->). done.
  - split; [done|]. by intros (? & ? & ?).
Qed.

(** A successful run is a first step followed by a successful run. *)
Lemma inject_cons i x rest m added c out c' :
  inject eligible i (x :: rest) m added c = Ok (out, c') →
  ∃ ls m1 added1 c1 out1,
    step_of eligible i x m added c ls m1 added1 c1
    ∧ inject eligible (S i) rest m1 added1 c1 = Ok (out1, c')
    ∧ out = ls ++ out1.
Proof.
  simpl. destruct m as [|info verify_reg].
  - destruct (contains "target triple" x && negb added) eqn:Ht.
    + intros (o & Hr & ->)%emit_ok.
      apply andb_true_iff in Ht as [Ht Ha]. apply negb_true_iff in Ha. subst added.
      eexists _, _, _, _, _. split; [by apply step_target|done].
    + destruct (eligible i x) as [info|] eqn:He.
      * intros (o & Hr & ->)%emit_ok.
        eexists _, _, _, _, _. split; [by apply step_protect|done].
      * intros (o & Hr & ->)%emit_ok.
        eexists _, _, _, _, _. split; [by apply step_copy|done].
  - destruct (consumes (result info) x) eqn:Hc.
    + unfold item.
      destruct (split x !! 4%nat) as [p4|] eqn:H4; [|done]. simpl.
      destruct (split x !! 6%nat) as [p6|] eqn:H6; [|done]. simpl.
      intros (o & Hr & ->)%emit_ok.
      eexists _, _, _, _, _. split; [by eapply step_split|done].
    + intros (o & Hr & ->)%emit_ok.
      eexists _, _, _, _, _. split; [by apply step_through|done].
Qed.

Lemma inject_nil i m added c out c' :
  inject eligible i [] m added c = Ok (out, c') → out = [] ∧ c' = c.
Proof. simpl. by intros [= <- <-]. Qed.

(** The entries the injector makes up are not the declaration. *)
Lemma dup_line_not_decl d info : dup_line d info ≠ abort_decl.
Proof. intros H. apply (f_equal first_char) in H. discriminate. Qed.

Lemma verify_line_not_decl v d info : verify_line v d info ≠ abort_decl.
Proof. intros H. apply (f_equal first_char) in H. discriminate. Qed.

Lemma split_lines_not_decl v n t f info :
  abort_decl ∉ split_lines v ("safe_" +:+ str n) ("fault_" +:+ str n) t f info.
Proof.
  unfold split_lines. intros H.
  repeat (apply elem_of_cons in H as [H|H];
          [apply (f_equal first_char) in H; discriminate|]).
  by apply elem_of_nil in H.
Qed.

Lemma decl_count_app (a b : list string) :
  decl_count (a ++ b) = (decl_count a + decl_count b)%nat.
Proof. unfold decl_count. by rewrite filter_app, length_app. Qed.

Lemma decl_count_absent (a : list string) : abort_decl ∉ a → decl_count a = 0%nat.
Proof.
  unfold decl_count. induction a as [|x a IH]; intros Hn; [done|].
  rewrite filter_cons. destruct (decide (x = abort_decl)) as [->|Hne].
  - exfalso. apply Hn. by left.
  - apply IH. intros Hin. apply Hn. by right.
Qed.

(** The declarations a step appends: one at the target line, none elsewhere. *)
Lemma step_decl_count i x m added c ls m1 added1 c1 :
  x ≠ abort_decl →
  step_of eligible i x m added c ls m1 added1 c1 →
  decl_count ls = (if added1 && negb added then 1 else 0)%nat.
Proof.
  intros Hx Hs. destruct Hs.
  - unfold decl_count. rewrite filter_cons, decide_False by done.
    by rewrite filter_cons, decide_True.
  - replace (added && negb added) with false by (by destruct added).
    apply decl_count_absent. intros Hin.
    apply elem_of_cons in Hin as [Hin|Hin]; [done|].
    apply elem_of_cons in Hin as [Hin|Hin];
      [by apply eq_sym, dup_line_not_decl in Hin|].
    apply elem_of_cons in Hin as [Hin|Hin];
      [by apply eq_sym, verify_line_not_decl in Hin|].
    by apply elem_of_nil in Hin.
  - replace (added && negb added) with false by (by destruct added).
    apply decl_count_absent. intros Hin%list_elem_of_singleton. done.
  - replace (added && negb added) with false by (by destruct added).
    apply decl_count_absent, split_lines_not_decl.
  - replace (added && negb added) with false by (by destruct added).
    apply decl_count_absent. intros Hin%list_elem_of_singleton. done.
Qed.

(** The flag is raised at a target line only, and never lowered. *)
Lemma step_added i x m added c ls m1 added1 c1 :
  step_of eligible i x m added c ls m1 added1 c1 →
  (added = true → added1 = true) ∧ (is_target x = false → added1 = added).
Proof. intros Hs. destruct Hs; split; congruence. Qed.

(** The declaration is appended at most once in a run; not at all once the
    flag is up, or when no line is a target line. *)
Lemma inject_decl_count lines : ∀ i m added c out c',
  abort_decl ∉ lines →
  inject eligible i lines m added c = Ok (out, c') →
  (decl_count out ≤ (if added then 0 else 1))%nat
  ∧ (Forall (λ x, is_target x = false) lines → decl_count out = 0%nat).
Proof.
  induction lines as [|x rest IH]; intros i m added c out c' Hn Hr.
  - apply inject_nil in Hr as [-> _]. unfold decl_count.
    split; [destruct added; simpl; lia|done].
  - apply inject_cons in Hr as (ls & m1 & added1 & c1 & out1 & Hs & Hr & ->).
    assert (x ≠ abort_decl) as Hx by (intros ->; apply Hn; by left).
    assert (abort_decl ∉ rest) as Hn' by (intros H; apply Hn; by right).
    destruct (IH _ _ _ _ _ _ Hn' Hr) as [Hle Hz].
    rewrite decl_count_app, (step_decl_count _ _ _ _ _ _ _ _ _ Hx Hs).
    destruct (step_added _ _ _ _ _ _ _ _ _ Hs) as [Hup Hsame].
    split.
    + destruct added, added1; simpl in *; try lia.
    + intros Hall. inversion Hall as [|? ? Ht Hall']; subst.
      rewrite (Hz Hall'), (Hsame Ht). destruct added; simpl; lia.
Qed.


End InjectorFacts.


Lemma process_file_ok lines threshold self out self' :
  Ranked.process_file lines threshold self = Ok (out, self') →
  ∃ sel c',
    Ranked.selected lines threshold = Ok sel
    ∧ inject (Ranked.eligible sel) 0 lines Scanning false (Ranked.ctrs self)
      = Ok (out, c')
    ∧ Ranked.ctrs self' = c'.
Proof.
  unfold Ranked.process_file, Ranked.selected.
  destruct (Ranked.scan lines threshold 0 lines) as [[all sel]|e]; [|done]. simpl.
  destruct (inject _ _ _ _ _ _) as [[o c]|e] eqn:Hi; [|done]. simpl.
  intros [= <- <-]. eauto.
Qed.


Lemma newline_free_app (a b : string) :
  newline_free (a +:+ b) = newline_free a && newline_free b.
Proof.
  induction a as [|c a IH]; [done|].
  change (String c a +:+ b) with (String c (a +:+ b)). simpl.
  by rewrite IH, andb_assoc.
Qed.

Lemma readlines_go_shaped s : ∀ cur,
  newline_free cur = true → Forall line_shaped (readlines_go s cur).
Proof.
  induction s as [|c s IH]; intros cur Hc; simpl.
  - destruct (is_empty cur); constructor; [|constructor].
    exists cur. auto.
  - destruct (decide (c = "010"%char)) as [->|Hne].
    + constructor; [|by apply IH].
      exists cur. split; [done|]. by right.
    + apply IH. rewrite newline_free_app, Hc. simpl.
      by rewrite bool_decide_eq_false_2.
Qed.

Lemma append_nl_inj (a b : string) : a +:+ nl = b +:+ nl → a = b.
Proof.
  revert b. induction a as [|c a IH]; intros [|d b] H; try done.
  - change (nl = String d (b +:+ nl)) in H. injection H as _ H. by destruct b.
  - change (String c (a +:+ nl) = nl) in H. injection H as _ H. by destruct a.
  - change (String c (a +:+ nl) = String d (b +:+ nl)) in H.
    injection H as -> H. f_equal. by apply IH.
Qed.

Lemma readlines_no_decl (content : string) : abort_decl ∉ readlines content.
Proof.
  intros Hin.
  pose proof (readlines_go_shaped content EmptyString eq_refl) as Hall.
  rewrite Forall_forall in Hall. apply Hall in Hin as (w & Hw & [He|He]).
  - subst w. vm_compute in Hw. discriminate.
  - change abort_decl with ((nl +:+ "declare void @abort() noreturn" +:+ nl) +:+ nl) in He.
    apply append_nl_inj in He. subst w. vm_compute in Hw. discriminate.
Qed.



(** * Selection and the threshold *)

Section SelectionFacts.
Import Ranked.

(** The comparisons found do not depend on the threshold, and the ones to
    protect are those found whose score reaches it. *)
Lemma scan_filter all_lines lines : ∀ threshold i p,
  scan all_lines threshold i lines = Ok p →
  p.2 = filter (meets threshold) p.1.
Proof.
  induction lines as [|x rest IH]; intros t i p; simpl.
  - by intros [= <-].
  - destruct (parse_icmp x) as [icmp|]; [|apply IH].
    destruct (score_comparison (result icmp) all_lines i) as [s|e]; [|done]. simpl.
    destruct (scan all_lines t (S i) rest) as [q|e] eqn:Hq; [|done]. simpl.
    intros [= <-]. simpl. apply IH in Hq.
    rewrite filter_cons, <- Hq.
    destruct (decide (meets t {| info := icmp; score := s; line_num := i |}))
      as [Hm|Hm]; unfold meets in Hm; simpl in Hm.
    + by rewrite bool_decide_eq_true_2.
    + by rewrite bool_decide_eq_false_2.
Qed.

Lemma scan_found all_lines lines : ∀ t1 t2 i p1 p2,
  scan all_lines t1 i lines = Ok p1 →
  scan all_lines t2 i lines = Ok p2 →
  p1.1 = p2.1.
Proof.
  induction lines as [|x rest IH]; intros t1 t2 i p1 p2; simpl.
  - by intros [= <-] [= <-].
  - destruct (parse_icmp x) as [icmp|]; [|apply IH].
    destruct (score_comparison (result icmp) all_lines i) as [s|e]; [|done]. simpl.
    destruct (scan all_lines t1 (S i) rest) as [q1|e] eqn:Hq1; [|done].
    destruct (scan all_lines t2 (S i) rest) as [q2|e] eqn:Hq2; [|done]. simpl.
    intros [= <-] [= <-]. simpl. f_equal. by eapply IH.
Qed.

(** A lookup by line number finds nothing below the line the scan started at. *)
Lemma scan_eligible_bound all_lines lines : ∀ threshold i p k x,
  scan all_lines threshold i lines = Ok p →
  (k < i)%nat → eligible p.2 k x = None.
Proof.
  induction lines as [|y rest IH]; intros t i p k x; simpl.
  - by intros [= <-].
  - destruct (parse_icmp y) as [icmp|]; [|intros; eapply IH; [done|lia]].
    destruct (score_comparison (result icmp) all_lines i) as [s|e]; [|done]. simpl.
    destruct (scan all_lines t (S i) rest) as [q|e] eqn:Hq; [|done]. simpl.
    intros [= <-] Hk. simpl.
    assert (eligible q.2 k x = None) as Hrest by (eapply IH; [done|lia]).
    case_bool_decide; [|done].
    unfold eligible. simpl. rewrite bool_decide_eq_false_2 by lia. exact Hrest.
Qed.

(** What is protected at the higher threshold is protected, with the same
    record, at the lower one. *)
Lemma scan_eligible_mono all_lines lines : ∀ t1 t2 i p1 p2 k x inf,
  t1 ≤ t2 →
  scan all_lines t1 i lines = Ok p1 →
  scan all_lines t2 i lines = Ok p2 →
  eligible p2.2 k x = Some inf → eligible p1.2 k x = Some inf.
Proof.
  induction lines as [|y rest IH]; intros t1 t2 i p1 p2 k x inf Hle; simpl.
  - by intros [= <-] [= <-].
  - destruct (parse_icmp y) as [icmp|]; [|by apply IH].
    destruct (score_comparison (result icmp) all_lines i) as [s|e]; [|done]. simpl.
    destruct (scan all_lines t1 (S i) rest) as [q1|e] eqn:Hq1; [|done].
    destruct (scan all_lines t2 (S i) rest) as [q2|e] eqn:Hq2; [|done]. simpl.
    intros [= <-] [= <-]. simpl.
    pose proof (IH t1 t2 (S i) q1 q2 k x inf Hle Hq1 Hq2) as IH'.
    destruct (bool_decide (t2 ≤ s)) eqn:H2.
    + apply bool_decide_eq_true in H2.
      rewrite bool_decide_eq_true_2 by lia.
      unfold eligible in *. simpl. case_bool_decide; [done|]. exact IH'.
    + intros He. specialize (IH' He).
      destruct (bool_decide (t1 ≤ s)); [|exact IH'].
      unfold eligible. simpl.
      destruct (decide (i = k)) as [->|Hne].
      * rewrite (scan_eligible_bound all_lines rest t1 (S k) q1 k x Hq1) in IH'
          by lia. done.
      * rewrite bool_decide_eq_false_2 by done. exact IH'.
Qed.

End SelectionFacts.

(** * Output size and the threshold *)

Lemma weight_app wt (a b : list string) :
  weight wt (a ++ b) = (weight wt a + weight wt b)%nat.
Proof. induction a as [|x a IH]; simpl; [done|]. rewrite IH. lia. Qed.

Section Simulation.
(** Two runs of the loop on the same lines, the first protecting at least
    what the second protects. Sizes are measured by a weight [wt] on
    entries that does not depend on the numbers of the fresh names, and for
    which the split of a branch outweighs the branch with a declaration. *)
Variables e1 e2 : nat → string → option icmp_info.
Hypothesis e2_in_e1 : ∀ k x inf, e2 k x = Some inf → e1 k x = Some inf.
Variable wt : string → nat.
Variable ok_line : string → Prop.
Hypothesis wt_dup : ∀ n m inf,
  wt (dup_line ("%dup_" +:+ str n) inf) = wt (dup_line ("%dup_" +:+ str m) inf).
Hypothesis wt_verify : ∀ n n' m m' inf,
  wt (verify_line ("%verify_" +:+ str n) ("%dup_" +:+ str n') inf)
  = wt (verify_line ("%verify_" +:+ str m) ("%dup_" +:+ str m') inf).
Hypothesis wt_split : ∀ n m b b' t f inf,
  weight wt (split_lines ("%verify_" +:+ str n) ("safe_" +:+ str b)
               ("fault_" +:+ str b) t f inf)
  = weight wt (split_lines ("%verify_" +:+ str m) ("safe_" +:+ str b')
                 ("fault_" +:+ str b') t f inf).
Hypothesis wt_branch : ∀ x n b t f inf,
  ok_line x →
  (wt x + wt abort_decl
   ≤ weight wt (split_lines ("%verify_" +:+ str n) ("safe_" +:+ str b)
                  ("fault_" +:+ str b) t f inf))%nat.

Lemma isolated_wait i x rest c :
  isolated e1 i (x :: rest) (Some c) = true →
  e1 i x = None
  ∧ (consumes (result c) x = true → isolated e1 (S i) rest None = true)
  ∧ (consumes (result c) x = false →
     is_target x = false ∧ isolated e1 (S i) rest (Some c) = true).
Proof.
  simpl. intros [He H]%andb_true_iff.
  apply negb_true_iff, bool_decide_eq_false in He.
  split.
  { destruct (e1 i x); [|done]. exfalso. apply He. eauto. }
  destruct (consumes (result c) x); split; try done.
  intros _. apply andb_true_iff in H as [Ht H]. by apply negb_true_iff in Ht.
Qed.

Lemma simulation rest : ∀ i m1 m2 a1 a2 c1 c2 o1 o2 c1' c2',
  related m1 m2 →
  (a1 = true → a2 = true) →
  isolated e1 i rest (waiting_of m1) = true →
  Forall ok_line rest →
  inject e1 i rest m1 a1 c1 = Ok (o1, c1') →
  inject e2 i rest m2 a2 c2 = Ok (o2, c2') →
  (weight wt o2 ≤ weight wt o1)%nat.
Proof.
  induction rest as [|x rest IH];
    intros i m1 m2 a1 a2 c1 c2 o1 o2 c1' c2' Hrel Hflag Hiso Hok H1 H2.
  { apply inject_nil in H1 as [-> _]. apply inject_nil in H2 as [-> _]. done. }
  apply inject_cons in H1 as (ls1 & n1 & b1 & d1 & out1 & Hs1 & Hr1 & ->).
  apply inject_cons in H2 as (ls2 & n2 & b2 & d2 & out2 & Hs2 & Hr2 & ->).
  inversion Hok as [|? ? Hx Hok']; subst.
  rewrite !weight_app.
  assert (∀ m1' m2' a1' a2',
            related m1' m2' → (a1' = true → a2' = true) →
            isolated e1 (S i) rest (waiting_of m1') = true →
            inject e1 (S i) rest m1' a1' d1 = Ok (out1, c1') →
            inject e2 (S i) rest m2' a2' d2 = Ok (out2, c2') →
            (weight wt out2 ≤ weight wt out1)%nat) as Hnext.
  { intros. eapply IH; eauto. }
  destruct Hrel as [|c k1 k2|c k1]; simpl in Hiso.
  - (* both runs in the outer loop *)
    inversion Hs1 as [? Ht1|? ? inf1 Ht1 He1|? ? Ht1 He1| |]; subst;
      inversion Hs2 as [? Ht2|? ? inf2 Ht2 He2|? ? Ht2 He2| |]; subst.
    + assert (e1 i x = None) as He.
      { destruct (e1 i x) eqn:He; [|done].
        rewrite Ht1 in Hiso. done. }
      rewrite He in Hiso.
      specialize (Hnext Scanning Scanning true true rel_scan (λ _, eq_refl) Hiso Hr1 Hr2).
      simpl. lia.
    + apply e2_in_e1 in He2. rewrite He2, Ht1 in Hiso. done.
    + assert (e1 i x = None) as He.
      { destruct (e1 i x) eqn:He; [|done].
        rewrite Ht1 in Hiso. done. }
      rewrite He in Hiso. rewrite Ht1 in Ht2. simpl in Ht2.
      apply negb_false_iff in Ht2. subst b2.
      specialize (Hnext Scanning Scanning true true rel_scan (λ _, eq_refl) Hiso Hr1 Hr2).
      simpl. lia.
    + rewrite Ht2 in Ht1. simpl in Ht1. apply negb_false_iff in Ht1. subst b1.
      specialize (Hflag eq_refl). done.
    + apply e2_in_e1 in He2. rewrite He1 in He2. injection He2 as ->.
      rewrite He1 in Hiso. apply andb_true_iff in Hiso as [_ Hiso].
      specialize (Hnext _ _ b1 b2 (rel_both inf2 _ _) Hflag Hiso Hr1 Hr2).
      simpl.
      rewrite (wt_dup (register_counter c1) (register_counter c2)).
      rewrite (wt_verify (S (register_counter c1)) (register_counter c1)
                 (S (register_counter c2)) (register_counter c2)).
      lia.
    + rewrite He1 in Hiso. apply andb_true_iff in Hiso as [_ Hiso].
      specialize (Hnext _ _ b1 b2 (rel_ahead inf1 _) Hflag Hiso Hr1 Hr2).
      simpl. lia.
    + rewrite Ht2 in Ht1. simpl in Ht1. apply negb_false_iff in Ht1. subst b1.
      specialize (Hflag eq_refl). done.
    + apply e2_in_e1 in He2. congruence.
    + rewrite He1 in Hiso.
      specialize (Hnext Scanning Scanning b1 b2 rel_scan Hflag Hiso Hr1 Hr2).
      simpl. lia.
  - (* both runs copying up to the same branch *)
    destruct (isolated_wait i x rest c) as (He & Hyes & Hno); [exact Hiso|].
    inversion Hs1 as [| | |? ? ? ? p4 p6 Hc1 H4 H6|? ? ? ? Hc1]; subst;
      inversion Hs2 as [| | |? ? ? ? q4 q6 Hc2 G4 G6|? ? ? ? Hc2]; subst;
      try congruence.
    + rewrite H4 in G4. injection G4 as <-. rewrite H6 in G6. injection G6 as <-.
      specialize (Hnext Scanning Scanning b1 b2 rel_scan Hflag (Hyes Hc1) Hr1 Hr2).
      rewrite (wt_split k1 k2 (block_counter c1) (block_counter c2)). lia.
    + destruct (Hno Hc1) as [_ Hiso'].
      specialize (Hnext _ _ b1 b2 (rel_both c k1 k2) Hflag Hiso' Hr1 Hr2).
      simpl. lia.
  - (* the first run copying, the second in the outer loop *)
    destruct (isolated_wait i x rest c) as (He & Hyes & Hno); [exact Hiso|].
    inversion Hs1 as [| | |? ? ? ? p4 p6 Hc1 H4 H6|? ? ? ? Hc1]; subst;
      inversion Hs2 as [? Ht2|? ? inf2 Ht2 He2|? ? Ht2 He2| |]; subst;
      try (apply e2_in_e1 in He2; congruence).
    + assert (b1 = true → true = true) as Hflag' by done.
      specialize (Hnext Scanning Scanning b1 true rel_scan Hflag' (Hyes Hc1) Hr1 Hr2).
      pose proof (wt_branch x k1 (block_counter c1)
                    (rstrip_by (is_char ","%char) p4) p6 c Hx).
      simpl in *. lia.
    + specialize (Hnext Scanning Scanning b1 b2 rel_scan Hflag (Hyes Hc1) Hr1 Hr2).
      pose proof (wt_branch x k1 (block_counter c1)
                    (rstrip_by (is_char ","%char) p4) p6 c Hx).
      simpl in *. lia.
    + destruct (Hno Hc1) as [Ht _]. congruence.
    + destruct (Hno Hc1) as [_ Hiso'].
      specialize (Hnext _ _ b1 b2 (rel_ahead c k1) Hflag Hiso' Hr1 Hr2).
      simpl. lia.
Qed.

End Simulation.

Lemma weight_entries (out : list string) : weight (λ _, 1%nat) out = length out.
Proof. induction out as [|x out IH]; simpl; [done|]. by rewrite IH. Qed.

Lemma newlines_app (a b : string) :
  newlines (a +:+ b) = (newlines a + newlines b)%nat.
Proof.
  induction a as [|c a IH]; [done|].
  change (String c a +:+ b) with (String c (a +:+ b)). simpl. rewrite IH. lia.
Qed.

Lemma weight_newlines (out : list string) :
  weight newlines out = newlines (writelines out).
Proof.
  induction out as [|x out IH]; simpl; [done|]. by rewrite newlines_app, IH.
Qed.

Lemma newlines_digits (d : Decimal.uint) : newlines (NilEmpty.string_of_uint d) = 0%nat.
Proof. induction d; simpl; done. Qed.

Lemma newlines_str (n : nat) : newlines (str n) = 0%nat.
Proof.
  unfold str, NilZero.string_of_uint.
  destruct (Nat.to_uint n) eqn:E; try (rewrite <- E; apply newlines_digits).
  done.
Qed.

Lemma newlines_dup_line n inf :
  newlines (dup_line ("%dup_" +:+ str n) inf)
  = (newlines (type inf) + newlines (op1 inf) + newlines (op2 inf) + 1)%nat.
Proof.
  unfold dup_line. rewrite !newlines_app, newlines_str. simpl. lia.
Qed.

Lemma newlines_verify_line n m inf :
  newlines (verify_line ("%verify_" +:+ str n) ("%dup_" +:+ str m) inf)
  = (newlines (result inf) + 1)%nat.
Proof.
  unfold verify_line. rewrite !newlines_app, !newlines_str. simpl. lia.
Qed.

Lemma newlines_split_lines n b t f inf :
  weight newlines (split_lines ("%verify_" +:+ str n) ("safe_" +:+ str b)
                     ("fault_" +:+ str b) t f inf)
  = (newlines (result inf) + newlines t + newlines f + 9)%nat.
Proof.
  unfold split_lines. simpl. rewrite !newlines_app, !newlines_str. simpl. lia.
Qed.

(** Read off a successful [output]. *)
Lemma output_ok lines threshold out :
  Ranked.output lines threshold = Ok out →
  ∃ sel c',
    Ranked.selected lines threshold = Ok sel
    ∧ inject (Ranked.eligible sel) 0 lines Scanning false init_counters = Ok (out, c').
Proof.
  unfold Ranked.output.
  destruct (Ranked.process_file lines threshold Ranked.init) as [[o self']|e] eqn:Hp;
    [|done].
  simpl. intros [= <-].
  apply process_file_ok in Hp as (sel & c' & Hsel & Hi & _). eauto.
Qed.

Lemma selected_ok lines threshold sel :
  Ranked.selected lines threshold = Ok sel →
  ∃ found, Ranked.scan lines threshold 0 lines = Ok (found, sel).
Proof.
  unfold Ranked.selected.
  destruct (Ranked.scan lines threshold 0 lines) as [[found s]|e]; [|done].
  simpl. intros [= <-]. eauto.
Qed.

(** C8, as stated, fails. In [swallow_unit] the comparison [%a] feeds no
    branch and scores 0, the comparison [%b] scores 100. At threshold 50
    only [%b] is protected; at threshold 0 both are selected, the copy loop
    opened for [%a] runs to the end of the input, and [%b] is copied through
    unprotected: the output is shorter, in entries and in lines. *)
Lemma lower_threshold_shorter_output :
  ¬ (∀ lines t1 t2 s1 s2 o1 o2,
       t1 ≤ t2 →
       Ranked.selected lines t1 = Ok s1 →
       Ranked.selected lines t2 = Ok s2 →
       Ranked.output lines t1 = Ok o1 →
       Ranked.output lines t2 = Ok o2 →
       (∀ c, c ∈ s2 → c ∈ s1)
       ∧ ((length o2 ≤ length o1)%nat
          ∨ (newlines (writelines o2) ≤ newlines (writelines o1))%nat)).
Proof.
  intros H.
  assert (∃ s1 s2 o1 o2,
            Ranked.selected swallow_unit 0 = Ok s1
            ∧ Ranked.selected swallow_unit 50 = Ok s2
            ∧ Ranked.output swallow_unit 0 = Ok o1
            ∧ Ranked.output swallow_unit 50 = Ok o2
            ∧ length o1 = 10%nat ∧ length o2 = 15%nat
            ∧ newlines (writelines o1) = 10%nat
            ∧ newlines (writelines o2) = 18%nat)
    as (s1 & s2 & o1 & o2 & Hs1 & Hs2 & Ho1 & Ho2 & L1 & L2 & N1 & N2).
  { eexists _, _, _, _. repeat split; vm_compute; reflexivity. }
  destruct (H swallow_unit 0 50 s1 s2 o1 o2) as [_ [Hl|Hn]]; try done; lia.
Qed.

(** C8, amended. The comparisons found do not depend on the threshold, the
    selected ones are exactly those whose score reaches it, and so the
    selection at the lower threshold contains the selection at the higher
    one. When the regions protected at the lower threshold do not overlap
    ([isolated]), the output at the lower threshold has at least as many
    entries as the output at the higher one, and, the input lines holding
    at most one line feed each, at least as many lines. *)
Theorem threshold_monotone (lines : list string) (t1 t2 : Z)
    (s1 s2 : list Ranked.comparison) :
  t1 ≤ t2 →
  Ranked.selected lines t1 = Ok s1 →
  Ranked.selected lines t2 = Ok s2 →
  (∃ found,
     Ranked.scan lines t1 0 lines = Ok (found, s1)
     ∧ Ranked.scan lines t2 0 lines = Ok (found, s2)
     ∧ s1 = filter (meets t1) found ∧ s2 = filter (meets t2) found)
  ∧ (∀ c, c ∈ s2 → c ∈ s1)
  ∧ (∀ o1 o2,
       isolated (Ranked.eligible s1) 0 lines None = true →
       Ranked.output lines t1 = Ok o1 →
       Ranked.output lines t2 = Ok o2 →
       (length o2 ≤ length o1)%nat
       ∧ (Forall (λ x, (newlines x ≤ 1)%nat) lines →
          (newlines (writelines o2) ≤ newlines (writelines o1))%nat)).
Proof.
  intros Hle Hs1 Hs2.
  destruct (selected_ok _ _ _ Hs1) as (f1 & Hf1).
  destruct (selected_ok _ _ _ Hs2) as (f2 & Hf2).
  pose proof (scan_found _ _ _ _ _ _ _ Hf1 Hf2) as Hsame. simpl in Hsame. subst f2.
  pose proof (scan_filter _ _ _ _ _ Hf1) as E1.
  pose proof (scan_filter _ _ _ _ _ Hf2) as E2. simpl in E1, E2.
  split; [by exists f1|]. split.
  { intros c. rewrite E1, E2, !list_elem_of_filter. unfold meets.
    intros [Hm Hin]. split; [lia|done]. }
  intros o1 o2 Hiso Ho1 Ho2.
  apply output_ok in Ho1 as (s1' & c1' & Hs1' & Hi1).
  apply output_ok in Ho2 as (s2' & c2' & Hs2' & Hi2).
  rewrite Hs1 in Hs1'. injection Hs1' as <-.
  rewrite Hs2 in Hs2'. injection Hs2' as <-.
  assert (∀ k x inf, Ranked.eligible s2 k x = Some inf →
                     Ranked.eligible s1 k x = Some inf) as Hsub.
  { intros k x inf.
    exact (scan_eligible_mono lines lines t1 t2 0 (f1, s1) (f1, s2) k x inf Hle Hf1 Hf2). }
  split.
  - rewrite <- !weight_entries.
    refine (simulation _ _ Hsub (λ _, 1%nat) (λ _, True) _ _ _ _
              lines 0%nat Scanning Scanning false false _ _ _ _ _ _
              rel_scan (λ H, H) Hiso _ Hi1 Hi2).
    + done.
    + done.
    + done.
    + intros. simpl. lia.
    + by apply Forall_true.
  - intros Hlines. rewrite <- !weight_newlines.
    refine (simulation _ _ Hsub newlines (λ x, (newlines x ≤ 1)%nat) _ _ _ _
              lines 0%nat Scanning Scanning false false _ _ _ _ _ _
              rel_scan (λ H, H) Hiso Hlines Hi1 Hi2).
    + intros. by rewrite !newlines_dup_line.
    + intros. by rewrite !newlines_verify_line.
    + intros. by rewrite !newlines_split_lines.
    + intros x n b t f inf Hx. rewrite newlines_split_lines.
      change (newlines abort_decl) with 3%nat. lia.
Qed.

Lemma threshold_monotone_witness :
  ∃ s1 s2 o1 o2,
    Ranked.selected sequential_unit 30 = Ok s1
    ∧ Ranked.selected sequential_unit 50 = Ok s2
    ∧ length s1 = 2%nat ∧ length s2 = 1%nat
    ∧ (∀ c, c ∈ s2 → c ∈ s1)
    ∧ Ranked.output sequential_unit 30 = Ok o1
    ∧ Ranked.output sequential_unit 50 = Ok o2
    ∧ (length o2 ≤ length o1)%nat
    ∧ (newlines (writelines o2) ≤ newlines (writelines o1))%nat.
Proof.
  eexists _, _, _, _.
  split; [vm_compute; reflexivity|].
  split; [vm_compute; reflexivity|].
  split; [reflexivity|]. split; [reflexivity|].
  destruct (threshold_monotone sequential_unit 30 50 _ _ ltac:(lia) eq_refl eq_refl)
    as (_ & Hsub & Hout).
  split; [exact Hsub|].
  split; [vm_compute; reflexivity|].
  split; [vm_compute; reflexivity|].
  destruct (Hout _ _ ltac:(vm_compute; reflexivity) eq_refl eq_refl) as [Hlen Hnl].
  split; [exact Hlen|].
  apply Hnl. repeat constructor.
Defined.

(** * Lines the injector leaves alone *)

Section FrameFacts.
Variable eligible : nat → string → option icmp_info.

Lemma step_keeps i x m added c ls m1 added1 c1 :
  step_of eligible i x m added c ls m1 added1 c1 →
  filter not_branch [x] `sublist_of` ls.
Proof.
  intros Hs.
  assert (filter not_branch [x] `sublist_of` [x]) as Hx by apply sublist_filter.
  destruct Hs as [| | |? ? ? ? ? ? Hc|].
  - etrans; [exact Hx|]. by apply sublist_skip, sublist_nil_l.
  - etrans; [exact Hx|]. by apply sublist_skip, sublist_nil_l.
  - exact Hx.
  - unfold consumes in Hc. apply andb_true_iff in Hc as [Hc _].
    rewrite filter_cons, decide_False; [apply sublist_nil_l|].
    unfold not_branch. congruence.
  - exact Hx.
Qed.

(** When the loop returns, every input line that is no conditional branch
    is in the output, in the input order. *)
Lemma inject_keeps lines : ∀ i m added c out c',
  inject eligible i lines m added c = Ok (out, c') →
  filter not_branch lines `sublist_of` out.
Proof.
  induction lines as [|x rest IH]; intros i m added c out c' Hr.
  - apply sublist_nil_l.
  - apply inject_cons in Hr as (ls & m1 & added1 & c1 & out1 & Hs & Hr & ->).
    change (x :: rest) with ([x] ++ rest). rewrite filter_app.
    apply sublist_app; [by eapply step_keeps|by eapply IH].
Qed.

End FrameFacts.

(** * Further properties of the resolver and the scorer *)

Section RangeFacts.
Import Ranked.
Variable blocks : gmap string (list string).

Lemma follow_parts_binary rec parts :
  binary_on rec → ∀ v z v', follow_parts rec parts v = Some (Some z, v') → z = 0 ∨ z = 1.
Proof.
  intros Hrec. induction parts as [|part parts IH]; intros v z v'; simpl; [done|].
  destruct (startswith "%" part); [|apply IH].
  destruct (rec (label_of part) v) as [[[q|] w]|] eqn:Hr; [|apply IH|done].
  intros [= -> ->]. by eapply Hrec.
Qed.

Lemma scan_block_binary rec ls :
  binary_on rec → ∀ v z v', scan_block rec ls v = Some (Some z, v') → z = 0 ∨ z = 1.
Proof.
  intros Hrec. induction ls as [|ln ls IH]; intros v z v'; simpl; [done|].
  do 4 (case_match; [intros [= <- _]; auto|]).
  case_match; [|apply IH].
  destruct (follow_parts rec (split ln) v) as [[[q|] w]|] eqn:Hf; [|apply IH|done].
  intros [= -> ->]. by eapply follow_parts_binary.
Qed.

Lemma resolve_binary (fuel : nat) : binary_on (resolve blocks fuel).
Proof.
  induction fuel as [|fuel IH]; intros label v z v'; simpl; [done|].
  destruct (decide (label ∈ v)); [done|].
  by apply scan_block_binary.
Qed.

End RangeFacts.

(** X1. The resolver answers a constant only with 0 or 1. *)
Theorem find_return_value_binary (blocks : gmap string (list string))
    (label : string) (z : Z) :
  Ranked.find_return_value blocks label = Some z → z = 0 ∨ z = 1.
Proof.
  unfold Ranked.find_return_value.
  destruct (Ranked.resolve blocks (S (size blocks)) label ∅) as [[r w]|] eqn:Hr;
    [|done].
  intros ->. by eapply resolve_binary.
Qed.

Lemma find_return_value_binary_witness :
  Ranked.find_return_value (Ranked.build_block_map nested_unit) "3" = Some 1
  ∧ (1 = 0 ∨ 1 = 1).
Proof.
  assert (Ranked.find_return_value (Ranked.build_block_map nested_unit) "3" = Some 1)
    as H by (vm_compute; reflexivity).
  split; [exact H|]. exact (find_return_value_binary _ _ _ H).
Defined.

Lemma score_branch_range blocks br s :
  Ranked.score_branch blocks br = Ok s → s = 0 ∨ s = 30 ∨ s = 100.
Proof.
  unfold Ranked.score_branch, item.
  destruct (split br !! 4%nat); [|done]. simpl.
  repeat case_match; intros [= <-]; auto.
Qed.

(** X2. A score is 0, 30 or 100. *)
Theorem score_comparison_range (cmp_result : string) (lines : list string)
    (line_idx : nat) (s : Z) :
  Ranked.score_comparison cmp_result lines line_idx = Ok s →
  s = 0 ∨ s = 30 ∨ s = 100.
Proof.
  unfold Ranked.score_comparison.
  destruct (List.find _ _) as [br|].
  - apply score_branch_range.
  - intros [= <-]. auto.
Qed.

Lemma score_comparison_range_witness :
  Ranked.score_comparison "%a" nested_unit 0 = Ok 30
  ∧ (30 = 0 ∨ 30 = 30 ∨ 30 = 100).
Proof.
  assert (Ranked.score_comparison "%a" nested_unit 0 = Ok 30) as H
    by (vm_compute; reflexivity).
  split; [exact H|]. exact (score_comparison_range _ _ _ _ H).
Defined.

(** * Runs that protect everything, or nothing *)

Section WholeRuns.

(** The loop only asks [eligible] about the lines it is run on. *)
Lemma inject_ext e1 e2 lines : ∀ i m added c,
  (∀ k x, lines !! k = Some x → e1 (i + k)%nat x = e2 (i + k)%nat x) →
  inject e1 i lines m added c = inject e2 i lines m added c.
Proof.
  induction lines as [|x rest IH]; intros i m added c Hext; [done|].
  assert (∀ m' a' c', inject e1 (S i) rest m' a' c' = inject e2 (S i) rest m' a' c')
    as Hrest.
  { intros. apply IH. intros k y Hk.
    specialize (Hext (S k) y Hk).
    by replace (i + S k)%nat with (S i + k)%nat in Hext by lia. }
  pose proof (Hext 0%nat x eq_refl) as Hx. rewrite Nat.add_0_r in Hx.
  simpl. destruct m as [|info v].
  - rewrite Hx. destruct (contains "target triple" x && negb added);
      [by rewrite Hrest|].
    destruct (e2 i x); by rewrite Hrest.
  - destruct (consumes (result info) x); [|by rewrite Hrest].
    destruct (item (split x) 4); [|done]. simpl.
    destruct (item (split x) 6); [|done]. simpl. by rewrite Hrest.
Qed.

(** With nothing to protect and the flag up, the loop copies its input. *)
Lemma inject_nothing_added e lines : ∀ i c,
  (∀ k x, lines !! k = Some x → e (i + k)%nat x = None) →
  inject e i lines Scanning true c = Ok (lines, c).
Proof.
  induction lines as [|x rest IH]; intros i c Hn; [done|].
  simpl. rewrite andb_false_r.
  pose proof (Hn 0%nat x eq_refl) as Hx. rewrite Nat.add_0_r in Hx. rewrite Hx.
  rewrite IH; [done|].
  intros k y Hk. specialize (Hn (S k) y Hk).
  by replace (i + S k)%nat with (S i + k)%nat in Hn by lia.
Qed.

(** With nothing to protect, the loop adds the declaration after the first
    target line and copies the rest. *)
Lemma inject_nothing e lines : ∀ i c,
  (∀ k x, lines !! k = Some x → e (i + k)%nat x = None) →
  inject e i lines Scanning false c = Ok (with_decl lines, c).
Proof.
  induction lines as [|x rest IH]; intros i c Hn; [done|].
  assert (∀ k y, rest !! k = Some y → e (S i + k)%nat y = None) as Hn'.
  { intros k y Hk. specialize (Hn (S k) y Hk).
    by replace (i + S k)%nat with (S i + k)%nat in Hn by lia. }
  simpl. rewrite andb_true_r. fold (is_target x).
  destruct (is_target x).
  - by rewrite inject_nothing_added.
  - pose proof (Hn 0%nat x eq_refl) as Hx. rewrite Nat.add_0_r in Hx. rewrite Hx.
    by rewrite IH.
Qed.

Lemma output_of_nothing lines threshold :
  Ranked.selected lines threshold = Ok [] →
  Ranked.output lines threshold = Ok (with_decl lines).
Proof.
  intros (found & Hscan)%selected_ok.
  unfold Ranked.output, Ranked.process_file. rewrite Hscan. simpl.
  by rewrite inject_nothing.
Qed.

(** The scores of the comparisons found are scores of the scorer. *)
Lemma scan_scores all_lines lines : ∀ threshold i p,
  Ranked.scan all_lines threshold i lines = Ok p →
  Forall (λ c, ∃ r, Ranked.score_comparison r all_lines (Ranked.line_num c)
                    = Ok (Ranked.score c)) p.1.
Proof.
  induction lines as [|x rest IH]; intros t i p; simpl.
  - intros [= <-]. constructor.
  - destruct (parse_icmp x) as [icmp|]; [|apply IH].
    destruct (Ranked.score_comparison (result icmp) all_lines i) as [s|e] eqn:Hs;
      [|done]. simpl.
    destruct (Ranked.scan all_lines t (S i) rest) as [q|e] eqn:Hq; [|done]. simpl.
    intros [= <-]. simpl. constructor; [by exists (result icmp)|by eapply IH].
Qed.

Lemma score_range_aux r lines i s :
  Ranked.score_comparison r lines i = Ok s → 0 ≤ s ≤ 100.
Proof.
  unfold Ranked.score_comparison.
  destruct (List.find _ _) as [br|]; [|intros [= <-]; lia].
  intros H%score_branch_range. lia.
Qed.

(** At a threshold of zero or less every comparison found is selected,
    and the lookup by line number is [parse_icmp] on the line. *)
Lemma scan_all_eligible all_lines lines : ∀ threshold i p,
  threshold ≤ 0 →
  Ranked.scan all_lines threshold i lines = Ok p →
  ∀ k x, lines !! k = Some x → Ranked.eligible p.2 (i + k)%nat x = parse_icmp x.
Proof.
  induction lines as [|y rest IH]; intros t i p Ht Hscan k x Hk; [done|].
  simpl in Hscan.
  destruct (parse_icmp y) as [icmp|] eqn:Hy.
  - destruct (Ranked.score_comparison (result icmp) all_lines i) as [s|e] eqn:Hs;
      [|done]. simpl in Hscan.
    destruct (Ranked.scan all_lines t (S i) rest) as [q|e] eqn:Hq; [|done].
    simpl in Hscan. injection Hscan as <-. simpl.
    apply score_range_aux in Hs.
    rewrite bool_decide_eq_true_2 by lia.
    unfold Ranked.eligible. simpl.
    destruct k as [|k]; simpl in Hk.
    + injection Hk as <-. rewrite Nat.add_0_r, bool_decide_eq_true_2 by done.
      simpl. by rewrite Hy.
    + rewrite bool_decide_eq_false_2 by lia.
      replace (i + S k)%nat with (S i + k)%nat by lia.
      by apply (IH t (S i) q Ht Hq k x).
  - destruct k as [|k]; simpl in Hk.
    + injection Hk as <-. rewrite Nat.add_0_r, Hy.
      apply (scan_eligible_bound all_lines rest t (S i) p i y Hscan). lia.
    + replace (i + S k)%nat with (S i + k)%nat by lia.
      by apply (IH t (S i) p Ht Hscan k x).
Qed.

End WholeRuns.

(** X3. Above the highest score nothing is selected: when the scan
    raises nothing at a threshold above 100, the output is the input with
    the abort declaration after its first target line, and nothing else. *)
Theorem threshold_above_scores (lines : list string) (threshold : Z)
    (sel : list Ranked.comparison) :
  100 < threshold →
  Ranked.selected lines threshold = Ok sel →
  sel = [] ∧ Ranked.output lines threshold = Ok (with_decl lines).
Proof.
  intros Ht Hsel.
  assert (sel = []) as ->; [|split; [done|by apply output_of_nothing]].
  destruct (selected_ok _ _ _ Hsel) as (found & Hscan).
  pose proof (scan_filter _ _ _ _ _ Hscan) as Hf.
  pose proof (scan_scores _ _ _ _ _ Hscan) as Hs. simpl in Hf, Hs. subst sel.
  clear Hscan Hsel.
  induction Hs as [|c found (r & Hc) _ IH]; [done|].
  rewrite filter_cons, decide_False; [exact IH|].
  unfold meets. apply score_range_aux in Hc. lia.
Qed.

Lemma threshold_above_scores_witness :
  Ranked.output nested_unit 101 = Ok (with_decl nested_unit).
Proof.
  refine (proj2 (threshold_above_scores nested_unit 101 [] _ _)).
  - lia.
  - vm_compute; reflexivity.
Defined.

(** X4. At a threshold of zero or less the ranked protector is the basic
    protector: when the scan raises nothing, both write the same output (or
    raise the same exception) and leave the same counters. *)
Theorem threshold_zero_is_basic (lines : list string) (threshold : Z)
    (sel : list Ranked.comparison) (self : Ranked.protector) :
  threshold ≤ 0 →
  Ranked.selected lines threshold = Ok sel →
  (o <- Ranked.process_file lines threshold self ;; Ok (o.1, Ranked.ctrs o.2))
  = Basic.process_file lines (Ranked.ctrs self).
Proof.
  intros Ht (found & Hscan)%selected_ok.
  unfold Ranked.process_file, Basic.process_file. rewrite Hscan. simpl.
  rewrite (inject_ext (Ranked.eligible sel) Basic.eligible).
  - destruct (inject Basic.eligible 0 lines Scanning false (Ranked.ctrs self))
      as [[o c]|e]; done.
  - intros k x Hk. unfold Basic.eligible.
    exact (scan_all_eligible lines lines threshold 0 (found, sel) Ht Hscan k x Hk).
Qed.

Lemma threshold_zero_is_basic_witness :
  (o <- Ranked.process_file nested_unit 0 Ranked.init ;; Ok (o.1, Ranked.ctrs o.2))
  = Basic.process_file nested_unit init_counters.
Proof.
  refine (threshold_zero_is_basic nested_unit 0 _ Ranked.init _ _).
  - lia.
  - vm_compute; reflexivity.
Defined.

(** * Units without a label the builder sees *)

Section Unlabelled.
Import Ranked.

Lemma build_block_map_no_labels lines :
  Forall (λ x, is_label_line x = false) lines → build_block_map lines = ∅.
Proof.
  intros Hn. unfold build_block_map.
  by rewrite (fold_before_first_label lines bb_init).
Qed.

Lemma score_branch_empty br s : score_branch ∅ br = Ok s → s = 0.
Proof.
  unfold score_branch, item.
  destruct (split br !! 4%nat); [|done]. simpl.
  rewrite !(find_return_value_no_block ∅) by apply lookup_empty.
  destruct (truthy _); simpl; by intros [= <-].
Qed.

Lemma score_comparison_empty r lines i s :
  build_block_map lines = ∅ → score_comparison r lines i = Ok s → s = 0.
Proof.
  intros Hb. unfold score_comparison. rewrite Hb.
  destruct (List.find _ _) as [br|]; [apply score_branch_empty|by intros [= <-]].
Qed.

End Unlabelled.

(** X5. In a unit where no line is a label the builder sees (none starts
    with a digit or contains [safe_] or [fault_], with a colon), the block
    map is empty and every score is 0: at any positive threshold nothing is
    selected, and the output is the input with the abort declaration after
    its first target line. *)
Theorem unlabelled_unit_unprotected (lines : list string) (threshold : Z)
    (sel : list Ranked.comparison) :
  Forall (λ x, is_label_line x = false) lines →
  0 < threshold →
  Ranked.selected lines threshold = Ok sel →
  Ranked.build_block_map lines = ∅
  ∧ sel = []
  ∧ Ranked.output lines threshold = Ok (with_decl lines).
Proof.
  intros Hn Ht Hsel.
  pose proof (build_block_map_no_labels lines Hn) as Hb.
  split; [done|].
  assert (sel = []) as ->; [|split; [done|by apply output_of_nothing]].
  destruct (selected_ok _ _ _ Hsel) as (found & Hscan).
  pose proof (scan_filter _ _ _ _ _ Hscan) as Hf.
  pose proof (scan_scores _ _ _ _ _ Hscan) as Hs. simpl in Hf, Hs. subst sel.
  clear Hscan Hsel.
  induction Hs as [|c found (r & Hc) _ IH]; [done|].
  rewrite filter_cons, decide_False; [exact IH|].
  unfold meets. apply (score_comparison_empty _ _ _ _ Hb) in Hc. lia.
Qed.

Lemma unlabelled_unit_unprotected_witness :
  Ranked.build_block_map named_label_unit = ∅
  ∧ Ranked.output named_label_unit 50 = Ok named_label_unit.
Proof.
  destruct (unlabelled_unit_unprotected named_label_unit 50 []) as (Hb & _ & Ho).
  - repeat constructor.
  - lia.
  - vm_compute; reflexivity.
  - split; [exact Hb|exact Ho].
Defined.

(** * Runs that return *)

Section Totality.

Lemma emit_total ls r :
  (∃ out c', r = Ok (out, c')) → ∃ out c', emit ls r = Ok (out, c').
Proof. intros (o & c & ->). unfold emit. simpl. eauto. Qed.

Lemma full_branch_items x r :
  full_branch x → consumes r x = true →
  ∃ p4 p6, split x !! 4%nat = Some p4 ∧ split x !! 6%nat = Some p6.
Proof.
  unfold full_branch, consumes. intros Hf [Hb _]%andb_true_iff.
  specialize (Hf Hb).
  destruct (lookup_lt_is_Some_2 (split x) 4%nat) as [p4 H4]; [lia|].
  destruct (lookup_lt_is_Some_2 (split x) 6%nat) as [p6 H6]; [lia|].
  eauto.
Qed.

(** The loop returns when every branch line it may meet is full. *)
Lemma inject_total e lines : ∀ i m added c,
  Forall full_branch lines →
  ∃ out c', inject e i lines m added c = Ok (out, c').
Proof.
  induction lines as [|x rest IH]; intros i m added c Hall; [simpl; eauto|].
  inversion Hall as [|? ? Hx Hrest]; subst.
  simpl. destruct m as [|info v].
  - destruct (contains "target triple" x && negb added); [by apply emit_total, IH|].
    destruct (e i x); by apply emit_total, IH.
  - destruct (consumes (result info) x) eqn:Hc; [|by apply emit_total, IH].
    destruct (full_branch_items x _ Hx Hc) as (p4 & p6 & H4 & H6).
    unfold item. rewrite H4, H6. simpl. by apply emit_total, IH.
Qed.

Lemma score_comparison_total r lines i :
  Forall full_branch lines → ∃ s, Ranked.score_comparison r lines i = Ok s.
Proof.
  intros Hall. unfold Ranked.score_comparison.
  destruct (List.find _ _) as [br|] eqn:Hf; [|eauto].
  apply find_some in Hf as [Hin Hc].
  assert (full_branch br) as Hbr.
  { rewrite Forall_forall in Hall. apply Hall.
    apply list_elem_of_In in Hin. unfold Ranked.window in Hin.
    by apply subseteq_take, subseteq_drop in Hin. }
  destruct (full_branch_items br _ Hbr Hc) as (p4 & p6 & H4 & H6).
  unfold Ranked.score_branch, item. rewrite H4. simpl.
  repeat case_match; eauto.
Qed.

Lemma scan_total all_lines lines : ∀ threshold i,
  Forall full_branch all_lines →
  ∃ p, Ranked.scan all_lines threshold i lines = Ok p.
Proof.
  induction lines as [|x rest IH]; intros t i Hall; simpl; [eauto|].
  destruct (parse_icmp x) as [icmp|]; [|by apply IH].
  destruct (score_comparison_total (result icmp) all_lines i Hall) as (s & ->).
  simpl. destruct (IH t (S i) Hall) as (q & ->). simpl. eauto.
Qed.

End Totality.

(** X6. Neither protector raises on a unit in which every line that
    contains [br i1] has at least seven tokens: both return an output. *)
Theorem process_file_returns (lines : list string) :
  Forall full_branch lines →
  (∀ threshold self, ∃ out self',
     Ranked.process_file lines threshold self = Ok (out, self'))
  ∧ (∀ self, ∃ out self', Basic.process_file lines self = Ok (out, self')).
Proof.
  intros Hall. split.
  - intros t self. unfold Ranked.process_file.
    destruct (scan_total lines lines t 0 Hall) as (p & ->). simpl.
    destruct (inject_total (Ranked.eligible p.2) lines 0 Scanning false
                (Ranked.ctrs self) Hall) as (o & c & ->).
    simpl. eauto.
  - intros self. by apply inject_total.
Qed.

Lemma process_file_returns_witness :
  (∃ out self', Ranked.process_file nested_unit 50 Ranked.init = Ok (out, self'))
  ∧ (∃ out self', Basic.process_file nested_unit init_counters = Ok (out, self')).
Proof.
  assert (Forall full_branch nested_unit) as Hall.
  { unfold nested_unit.
    repeat (apply List.Forall_cons;
            [intros H; first [vm_compute in H; discriminate | vm_compute; lia]|]).
    apply List.Forall_nil. }
  destruct (process_file_returns nested_unit Hall) as [Hr Hb].
  split; [apply Hr|apply Hb].
Defined.

(** X7. Whenever a protector returns, every input line that is no
    conditional branch is in its output, verbatim and in the input order. *)
Theorem lines_kept (lines : list string) :
  (∀ threshold self out self',
     Ranked.process_file lines threshold self = Ok (out, self') →
     filter not_branch lines `sublist_of` out)
  ∧ (∀ self out self',
       Basic.process_file lines self = Ok (out, self') →
       filter not_branch lines `sublist_of` out).
Proof.
  split.
  - intros t self out self' (sel & c' & _ & Hi & _)%process_file_ok.
    by eapply inject_keeps.
  - intros self out self' Hi. by eapply inject_keeps.
Qed.

Lemma lines_kept_witness :
  ∃ out self',
    Basic.process_file nested_unit init_counters = Ok (out, self')
    ∧ filter not_branch nested_unit `sublist_of` out.
Proof.
  eexists _, _. split; [vm_compute; reflexivity|].
  refine (proj2 (lines_kept nested_unit) init_counters _ _ _).
  vm_compute; reflexivity.
Defined.

(** * Counters and output size *)

Section Accounting.
Variable eligible : nat → string → option icmp_info.

(** What one step adds to the output and to the counters. *)
Lemma step_account i x m added c ls m1 added1 c1 :
  x ≠ abort_decl →
  step_of eligible i x m added c ls m1 added1 c1 →
  ∃ p s,
    register_counter c1 = (register_counter c + 2 * p)%nat
    ∧ block_counter c1 = (block_counter c + s)%nat
    ∧ (s + pending m1 = p + pending m)%nat
    ∧ length ls = (1 + 2 * p + 5 * s + decl_count ls)%nat.
Proof.
  intros Hx Hs.
  pose proof (step_decl_count eligible _ _ _ _ _ _ _ _ _ Hx Hs) as Hd.
  destruct Hs; rewrite Hd; simpl.
  - exists 0%nat, 0%nat. simpl. lia.
  - exists 1%nat, 0%nat. replace (added && negb added) with false by (by destruct added).
    simpl. lia.
  - exists 0%nat, 0%nat. replace (added && negb added) with false by (by destruct added).
    simpl. lia.
  - exists 0%nat, 1%nat. replace (added && negb added) with false by (by destruct added).
    simpl. lia.
  - exists 0%nat, 0%nat. replace (added && negb added) with false by (by destruct added).
    simpl. lia.
Qed.

(** A run protects [p] comparisons and splits [s] branches: the register
    counter moves by [2 * p], the block counter by [s], at most one split
    per comparison protected (or left open by the mode the run starts in),
    and the output has one entry per input line, two more per comparison,
    five more per split, and the declarations. *)
Lemma inject_account lines : ∀ i m added c out c',
  abort_decl ∉ lines →
  inject eligible i lines m added c = Ok (out, c') →
  ∃ p s,
    register_counter c' = (register_counter c + 2 * p)%nat
    ∧ block_counter c' = (block_counter c + s)%nat
    ∧ (s ≤ p + pending m)%nat
    ∧ length out = (length lines + 2 * p + 5 * s + decl_count out)%nat.
Proof.
  induction lines as [|x rest IH]; intros i m added c out c' Hn Hr.
  - apply inject_nil in Hr as [-> ->]. exists 0%nat, 0%nat.
    unfold decl_count. simpl. lia.
  - apply inject_cons in Hr as (ls & m1 & added1 & c1 & out1 & Hs & Hr & ->).
    assert (x ≠ abort_decl) as Hx by (intros ->; apply Hn; by left).
    assert (abort_decl ∉ rest) as Hn' by (intros H; apply Hn; by right).
    destruct (step_account _ _ _ _ _ _ _ _ _ Hx Hs) as (p0 & s0 & Hr0 & Hb0 & Hp0 & Hl0).
    destruct (IH _ _ _ _ _ _ Hn' Hr) as (p1 & s1 & Hr1 & Hb1 & Hp1 & Hl1).
    exists (p0 + p1)%nat, (s0 + s1)%nat.
    rewrite length_app, decl_count_app. simpl. lia.
Qed.

End Accounting.

(** X8. A run of either protector protects some number [p] of comparisons
    and splits [s <= p] branches: the register counter has moved by [2 * p]
    and the block counter by [s], neither ever backwards, and the output has
    one entry per input line, two more per protected comparison, five more
    per split branch, and at most one more for the declaration. *)
Theorem output_accounting (lines : list string) :
  abort_decl ∉ lines →
  (∀ threshold self out self',
     Ranked.process_file lines threshold self = Ok (out, self') →
     ∃ p s,
       register_counter (Ranked.ctrs self')
       = (register_counter (Ranked.ctrs self) + 2 * p)%nat
       ∧ block_counter (Ranked.ctrs self')
         = (block_counter (Ranked.ctrs self) + s)%nat
       ∧ (s ≤ p)%nat
       ∧ length out = (length lines + 2 * p + 5 * s + decl_count out)%nat
       ∧ (decl_count out ≤ 1)%nat)
  ∧ (∀ self out self',
       Basic.process_file lines self = Ok (out, self') →
       ∃ p s,
         register_counter self' = (register_counter self + 2 * p)%nat
         ∧ block_counter self' = (block_counter self + s)%nat
         ∧ (s ≤ p)%nat
         ∧ length out = (length lines + 2 * p + 5 * s + decl_count out)%nat
         ∧ (decl_count out ≤ 1)%nat).
Proof.
  intros Hn. split.
  - intros t self out self' (sel & c' & _ & Hi & Hc)%process_file_ok.
    destruct (inject_account _ _ _ _ _ _ _ _ Hn Hi) as (p & s & H1 & H2 & H3 & H4).
    destruct (inject_decl_count _ _ _ _ _ _ _ _ Hn Hi) as [Hd _].
    exists p, s. rewrite Hc. simpl in *. repeat split; try done; lia.
  - intros self out self' Hi.
    destruct (inject_account _ _ _ _ _ _ _ _ Hn Hi) as (p & s & H1 & H2 & H3 & H4).
    destruct (inject_decl_count _ _ _ _ _ _ _ _ Hn Hi) as [Hd _].
    exists p, s. simpl in *. repeat split; try done; lia.
Qed.

Lemma output_accounting_witness :
  ∃ out self' p s,
    Basic.process_file unit_with_target init_counters = Ok (out, self')
    ∧ register_counter self' = (1000 + 2 * p)%nat
    ∧ block_counter self' = (100 + s)%nat
    ∧ (s ≤ p)%nat
    ∧ length out = (length unit_with_target + 2 * p + 5 * s + decl_count out)%nat
    ∧ (decl_count out ≤ 1)%nat.
Proof.
  destruct (Basic.process_file unit_with_target init_counters) as [[out self']|e] eqn:Hp;
    [|vm_compute in Hp; discriminate].
  destruct (proj2 (output_accounting unit_with_target (readlines_no_decl _))
              init_counters out self' Hp) as (p & s & H).
  exists out, self', p, s. split; [reflexivity|exact H].
Defined.

(** * What the block map holds *)

Section BlockMapContents.
Import Ranked.

Lemma opened_more seen k seg x :
  is_label_line x = false → opened seen k seg → opened (seen ++ [x]) k (seg ++ [x]).
Proof.
  intros Hx (pre & l & -> & Hl & Hn & Hseg).
  exists pre, l. split; [by rewrite <- app_assoc|]. split; [done|]. split; [done|].
  apply Forall_app. split; [done|]. by constructor.
Qed.

Lemma flush_of_input seen st :
  bb_inv seen st → ∀ k ls, flush st !! k = Some ls → block_of_input seen k ls.
Proof.
  intros (Hb & Hc) k ls. unfold flush.
  assert (blocks st !! k = Some ls → block_of_input seen k ls) as Hold.
  { intros (Hk & s1 & seg & l' & rest' & -> & Ho & Hl' & ->)%Hb.
    split; [done|]. exists s1, seg, (l' :: rest').
    split; [done|]. split; [done|]. split; [|done]. right. by exists l', rest'. }
  destruct (current_label st) as [l|] eqn:Hl; [|done].
  destruct (is_empty l) eqn:He; [done|].
  destruct (decide (l = k)) as [->|Hne].
  - rewrite lookup_insert_eq. intros [= <-].
    destruct (Hc _ eq_refl) as (seg & Ho & Hi).
    split; [done|]. exists seen, seg, []. split; [by rewrite app_nil_r|].
    split; [done|]. split; [by left|]. by apply Hi.
  - by rewrite lookup_insert_ne.
Qed.

Lemma bb_step_inv seen st x :
  bb_inv seen st → bb_inv (seen ++ [x]) (bb_step st x).
Proof.
  intros Hinv. pose proof Hinv as (Hb & Hc).
  destruct (is_label_line x) eqn:Hl.
  - rewrite bb_step_label by done. split; simpl.
    + intros k ls Hk.
      destruct (flush_of_input seen st Hinv k ls Hk)
        as (Hne & s & seg & rest & -> & Ho & Hr & ->).
      split; [done|].
      destruct Hr as [->|(l' & rest' & -> & Hl')].
      * exists s, seg, x, []. by rewrite app_nil_r.
      * exists s, seg, l', (rest' ++ [x]). split; [by rewrite <- app_assoc|done].
    + intros k [= <-]. exists []. split; [|done].
      exists seen, x. split; [done|]. split; [done|]. split; [done|constructor].
  - destruct (bb_step_cases st x) as [[Hl' _]|(_ & Hbl & Hcl)]; [congruence|].
    split.
    + rewrite Hbl.
      intros k ls (Hk & s1 & seg & l' & rest' & -> & Ho & Hl' & ->)%Hb.
      split; [done|]. exists s1, seg, l', (rest' ++ [x]).
      split; [by rewrite <- app_assoc|done].
    + rewrite Hcl. intros k Hk. destruct (Hc k Hk) as (seg & Ho & Hi).
      exists (seg ++ [x]). split; [by apply opened_more|].
      intros Hne. rewrite filter_app, <- Hi by done.
      destruct (is_plain x) eqn:Hp.
      * rewrite bb_step_plain by done. rewrite Hk. simpl. rewrite Hne. simpl.
        by rewrite filter_cons, decide_True by done.
      * rewrite bb_step_other by done.
        rewrite filter_cons, decide_False by (by rewrite Hp).
        by rewrite filter_nil, app_nil_r.
Qed.

Lemma fold_inv more : ∀ seen st,
  bb_inv seen st → bb_inv (seen ++ more) (fold_left bb_step more st).
Proof.
  induction more as [|x more IH]; intros seen st Hinv; simpl.
  - by rewrite app_nil_r.
  - replace (seen ++ x :: more) with ((seen ++ [x]) ++ more)
      by (by rewrite <- app_assoc).
    apply IH. by apply bb_step_inv.
Qed.

Lemma bb_init_inv : bb_inv [] bb_init.
Proof.
  split; simpl; [|done].
  intros k ls Hk. by rewrite lookup_empty in Hk.
Qed.

End BlockMapContents.

(** X9. Every block of the map comes from the input: its key is the
    non-empty name of a label line of the input, and its lines are exactly
    the lines that follow this label line, up to the next label line or the
    end of the input, and fail the builder's outer test (no label-like line
    is ever filed under a block), in the input order. *)
Theorem build_block_map_contents (lines : list string) (k : string)
    (ls : list string) :
  Ranked.build_block_map lines !! k = Some ls → block_of_input lines k ls.
Proof.
  unfold Ranked.build_block_map.
  apply (flush_of_input lines).
  exact (fold_inv lines [] Ranked.bb_init bb_init_inv).
Qed.

Lemma build_block_map_contents_witness :
  block_of_input nested_unit "2" [line "  ret i32 0"].
Proof.
  apply (build_block_map_contents nested_unit "2" [line "  ret i32 0"]).
  vm_compute; reflexivity.
Defined.

(** * Units written back unchanged *)

Section RoundTrip.

Lemma append_empty_r (a : string) : a +:+ EmptyString = a.
Proof.
  induction a as [|c a IH]; [done|].
  change (String c a +:+ EmptyString) with (String c (a +:+ EmptyString)).
  by rewrite IH.
Qed.

Lemma append_snoc (a : string) (c : ascii) (b : string) :
  (a +:+ String c EmptyString) +:+ b = a +:+ String c b.
Proof.
  induction a as [|d a IH]; [done|].
  change ((String d a +:+ String c EmptyString) +:+ b)
    with (String d ((a +:+ String c EmptyString) +:+ b)).
  by rewrite IH.
Qed.

Lemma writelines_readlines_go s : ∀ cur,
  writelines (readlines_go s cur) = cur +:+ s.
Proof.
  induction s as [|c s IH]; intros cur; simpl.
  - destruct cur; [done|]. simpl. by rewrite append_empty_r.
  - destruct (decide (c = "010"%char)) as [->|Hne].
    + simpl. rewrite IH. change (EmptyString +:+ s) with s. apply append_snoc.
    + rewrite IH. apply append_snoc.
Qed.

Lemma with_decl_no_target lines :
  Forall (λ x, is_target x = false) lines → with_decl lines = lines.
Proof.
  induction 1 as [|x rest Hx _ IH]; [done|]. simpl. by rewrite Hx, IH.
Qed.

Lemma scan_no_comparison all_lines lines : ∀ threshold i,
  Forall (λ x, parse_icmp x = None) lines →
  Ranked.scan all_lines threshold i lines = Ok ([], []).
Proof.
  induction lines as [|x rest IH]; intros t i Hall; [done|].
  inversion Hall as [|? ? Hx Hrest]; subst. simpl. rewrite Hx. by apply IH.
Qed.

End RoundTrip.

(** X10. A file in which no line is a comparison ([parse_icmp] rejects
    it) or a target line goes through both protectors unchanged: the output
    entries are the lines read, the text written is the text read, and
    neither protector's state moves (the counters of both, and the list of
    comparisons of the ranked one). *)
Theorem unit_without_comparisons_unchanged (content : string) :
  Forall (λ x, parse_icmp x = None ∧ is_target x = false) (readlines content) →
  (∀ self, Basic.process_file (readlines content) self
           = Ok (readlines content, self))
  ∧ (∀ threshold, Ranked.output (readlines content) threshold
                  = Ok (readlines content))
  ∧ (∀ threshold self, Ranked.process_file (readlines content) threshold self
                       = Ok (readlines content, self))
  ∧ writelines (readlines content) = content.
Proof.
  intros Hall.
  assert (Forall (λ x, parse_icmp x = None) (readlines content)) as Hp
    by (eapply Forall_impl; [exact Hall|by intros x [? _]]).
  assert (Forall (λ x, is_target x = false) (readlines content)) as Ht
    by (eapply Forall_impl; [exact Hall|by intros x [_ ?]]).
  split; [|split; [|split]].
  - intros self. unfold Basic.process_file.
    rewrite inject_nothing, with_decl_no_target by
      (try done; intros k x Hk; rewrite Forall_lookup in Hp; by apply (Hp k)).
    done.
  - intros t. rewrite output_of_nothing.
    + by rewrite with_decl_no_target.
    + unfold Ranked.selected. by rewrite scan_no_comparison.
  - intros t self. unfold Ranked.process_file.
    rewrite scan_no_comparison by done. simpl.
    rewrite inject_nothing, with_decl_no_target by done. simpl.
    rewrite app_nil_r. by destruct self.
  - unfold readlines. by rewrite writelines_readlines_go.
Qed.

Lemma unit_without_comparisons_unchanged_witness :
  Basic.process_file (readlines plain_content) init_counters
  = Ok (readlines plain_content, init_counters)
  ∧ Ranked.process_file (readlines plain_content) 50 Ranked.init
    = Ok (readlines plain_content, Ranked.init)
  ∧ writelines (readlines plain_content) = plain_content.
Proof.
  destruct (unit_without_comparisons_unchanged plain_content)
    as (Hb & _ & Hr & Hw).
  - repeat constructor.
  - split; [apply Hb|]. split; [apply Hr|exact Hw].
Defined.

(** * What the verifier counts *)

Section Counting.
Import Verifier.

(** A count is positive exactly when the pattern matches somewhere. *)
Lemma findall_count_pos_inv pattern content : ∀ skip,
  (0 < findall_count pattern content skip)%nat →
  ∃ pre suf, content = pre +:+ suf ∧ is_Some (pattern suf).
Proof.
  induction content as [|c rest IH]; intros skip; simpl; [lia|].
  destruct skip as [|k].
  - destruct (pattern (String c rest)) as [n|] eqn:Hp.
    + intros _. exists EmptyString, (String c rest). split; [done|]. rewrite Hp. eauto.
    + intros (pre & suf & -> & Hs)%IH. by exists (String c pre), suf.
  - intros (pre & suf & -> & Hs)%IH. by exists (String c pre), suf.
Qed.

Lemma findall_count_pos pattern pre : ∀ suf,
  suf ≠ EmptyString → is_Some (pattern suf) →
  (0 < findall_count pattern (pre +:+ suf) 0)%nat.
Proof.
  induction pre as [|c pre IH]; intros suf Hne [n Hp].
  - change (EmptyString +:+ suf) with suf. destruct suf as [|d suf]; [done|].
    simpl. rewrite Hp. lia.
  - change (String c pre +:+ suf) with (String c (pre +:+ suf)). simpl.
    destruct (pattern (String c (pre +:+ suf))); [lia|]. apply IH; eauto.
Qed.

Lemma startswith_app pat rest : startswith pat (pat +:+ rest) = true.
Proof.
  induction pat as [|c pat IH]; [done|].
  change (String c pat +:+ rest) with (String c (pat +:+ rest)).
  unfold startswith. fold startswith. by rewrite decide_True.
Qed.

Lemma startswith_inv pat : ∀ s,
  startswith pat s = true → ∃ rest, s = pat +:+ rest.
Proof.
  induction pat as [|c pat IH]; intros s.
  - intros _. by exists s.
  - destruct s as [|d s]; [done|]. unfold startswith. fold startswith.
    destruct (decide (c = d)) as [->|]; [|done].
    intros (rest & ->)%IH. by exists rest.
Qed.

Lemma string_drop_app pat rest : string_drop (String.length pat) (pat +:+ rest) = rest.
Proof. induction pat as [|c pat IH]; [done|]. exact IH. Qed.

Lemma literal_some pat suf :
  is_Some (literal pat suf) ↔ ∃ rest, suf = pat +:+ rest.
Proof.
  unfold literal. split.
  - destruct (startswith pat suf) eqn:Hs; [|by intros [? ?]].
    intros _. by apply startswith_inv.
  - intros (rest & ->). rewrite startswith_app. eauto.
Qed.

Lemma prefix_digits_some prefix suf :
  is_Some (prefix_digits prefix suf)
  ↔ ∃ d rest, isdigit d = true ∧ suf = prefix +:+ String d rest.
Proof.
  unfold prefix_digits. split.
  - destruct (startswith prefix suf) eqn:Hs; [|by intros [? ?]].
    apply startswith_inv in Hs as (rest & ->). rewrite string_drop_app.
    destruct rest as [|d rest]; simpl; [by intros [? ?]|].
    destruct (isdigit d) eqn:Hd; [|by intros [? ?]].
    intros _. eauto.
  - intros (d & rest & Hd & ->). rewrite startswith_app, string_drop_app.
    simpl. rewrite Hd. eauto.
Qed.

Lemma app_nonempty (a b : string) : a ≠ EmptyString → a +:+ b ≠ EmptyString.
Proof. by destruct a. Qed.

Lemma append_assoc (a b c : string) : (a +:+ b) +:+ c = a +:+ b +:+ c.
Proof.
  induction a as [|x a IH]; [done|].
  change ((String x a +:+ b) +:+ c) with (String x ((a +:+ b) +:+ c)).
  by rewrite IH.
Qed.

Lemma literal_count_pos pat content :
  pat ≠ EmptyString →
  (0 < count_pattern content (literal pat))%nat
  ↔ ∃ pre rest, content = pre +:+ pat +:+ rest.
Proof.
  intros Hne. unfold count_pattern. split.
  - intros (pre & suf & -> & (rest & ->)%literal_some)%findall_count_pos_inv.
    eauto.
  - intros (pre & rest & ->). apply findall_count_pos.
    + by apply app_nonempty.
    + apply literal_some. eauto.
Qed.

Lemma prefix_digits_count_pos prefix content :
  (0 < count_pattern content (prefix_digits prefix))%nat
  ↔ ∃ pre d rest, isdigit d = true ∧ content = pre +:+ prefix +:+ String d rest.
Proof.
  unfold count_pattern. split.
  - intros (pre & suf & -> & (d & rest & Hd & ->)%prefix_digits_some)%findall_count_pos_inv.
    eauto.
  - intros (pre & d & rest & Hd & ->). apply findall_count_pos.
    + by destruct prefix.
    + apply prefix_digits_some. eauto.
Qed.

End Counting.

(** X11. The three checks of the verifier, as facts about the text: a
    unit has an abort call exactly when the text [call void @abort] occurs
    in it, a duplicate identifier exactly when [%dup_] is followed by a
    digit somewhere, and a verification identifier exactly when [%verify_]
    is. *)
Theorem verifier_checks (content : string) :
  ((Verifier.verify_abort_present content).1 = true
   ↔ ∃ pre rest, content = pre +:+ "call void @abort" +:+ rest)
  ∧ ((Verifier.verify_duplicates_present content).1 = true
     ↔ ∃ pre d rest, isdigit d = true ∧ content = pre +:+ "%dup_" +:+ String d rest)
  ∧ ((Verifier.verify_verification_present content).1 = true
     ↔ ∃ pre d rest,
         isdigit d = true ∧ content = pre +:+ "%verify_" +:+ String d rest).
Proof.
  unfold Verifier.verify_abort_present, Verifier.verify_duplicates_present,
    Verifier.verify_verification_present. simpl.
  rewrite !bool_decide_eq_true.
  split; [|split].
  - by apply literal_count_pos.
  - apply prefix_digits_count_pos.
  - apply prefix_digits_count_pos.
Qed.

(** * The report of the verification pipeline *)

Section Report.
Import Verifier.
Variable compile_with_optimization : string → option string.

Lemma verify_protected_ir_report protected_ir :
  artifacts_present protected_ir →
  verify_protected_ir protected_ir init
  = (true,
     {| original_size := 0; protected_size := count_lines protected_ir;
        optimized_size := 0;
        abort_calls_protected := abort_calls protected_ir;
        abort_calls_optimized := 0;
        duplicate_cmp_protected := duplicate_ids protected_ir;
        duplicate_cmp_optimized := 0;
        verification_passed := false |}).
Proof.
  unfold artifacts_present, abort_calls, duplicate_ids, verify_ids.
  intros (Ha & Hd & Hv).
  unfold verify_protected_ir, verify_abort_present, verify_duplicates_present,
    verify_verification_present.
  rewrite !bool_decide_eq_true_2 by done. reflexivity.
Qed.

Lemma verify_protected_ir_missing protected_ir :
  ¬ artifacts_present protected_ir →
  ∃ r, verify_protected_ir protected_ir init = (false, r)
       ∧ abort_calls_optimized r = 0%nat ∧ verification_passed r = false.
Proof.
  unfold artifacts_present, abort_calls, duplicate_ids, verify_ids.
  intros Hn.
  unfold verify_protected_ir, verify_abort_present, verify_duplicates_present,
    verify_verification_present.
  repeat case_bool_decide; simpl; eauto.
  exfalso. apply Hn. auto.
Qed.

End Report.

(** X12. With at least one counted line in the original unit the
    pipeline never raises; it passes exactly when the three artifacts are in
    the protected unit and an abort call survives the optimizer; and when it
    passes, the report holds the three line counts, the abort calls and
    duplicate identifiers before and after optimization, and the pass
    mark. *)
Theorem verification_report (compile_with_optimization : string → option string)
    (original_ir protected_ir : string) :
  Verifier.count_lines original_ir ≠ 0%nat →
  let p := Verifier.run_verification compile_with_optimization original_ir
             protected_ir Verifier.init in
  (∃ b, p.1 = Ok b ∧ Verifier.verification_passed p.2 = b)
  ∧ (p.1 = Ok true
     ↔ artifacts_present protected_ir
       ∧ ∃ optimized_ir, compile_with_optimization protected_ir = Some optimized_ir
                         ∧ (0 < abort_calls optimized_ir)%nat)
  ∧ (∀ optimized_ir,
       p.1 = Ok true →
       compile_with_optimization protected_ir = Some optimized_ir →
       p.2 = {| Verifier.original_size := Verifier.count_lines original_ir;
                Verifier.protected_size := Verifier.count_lines protected_ir;
                Verifier.optimized_size := Verifier.count_lines optimized_ir;
                Verifier.abort_calls_protected := abort_calls protected_ir;
                Verifier.abort_calls_optimized := abort_calls optimized_ir;
                Verifier.duplicate_cmp_protected := duplicate_ids protected_ir;
                Verifier.duplicate_cmp_optimized := duplicate_ids optimized_ir;
                Verifier.verification_passed := true |}).
Proof.
  intros Horig p.
  split; [|split; [by apply run_verification_pass|]].
  - subst p. unfold Verifier.run_verification.
    destruct (decide (artifacts_present protected_ir)) as [Ha|Hn].
    2:{ destruct (verify_protected_ir_missing _ Hn) as (r & -> & _ & Hv). simpl. eauto. }
    rewrite verify_protected_ir_report by done. simpl.
    destruct (compile_with_optimization protected_ir) as [o|]; [|simpl; eauto].
    unfold Verifier.verify_optimized_ir, Verifier.verify_abort_present,
      Verifier.verify_duplicates_present, Verifier.print_summary.
    case_bool_decide; simpl; [|eauto].
    rewrite bool_decide_eq_false_2 by done.
    rewrite bool_decide_eq_true_2 by done. simpl. eauto.
  - intros o Hpass Ho. subst p. revert Hpass.
    unfold Verifier.run_verification.
    destruct (decide (artifacts_present protected_ir)) as [Ha|Hn].
    2:{ destruct (verify_protected_ir_missing _ Hn) as (r & -> & _). by simpl. }
    rewrite verify_protected_ir_report by done. simpl. rewrite Ho.
    unfold Verifier.verify_optimized_ir, Verifier.verify_abort_present,
      Verifier.verify_duplicates_present, Verifier.print_summary.
    case_bool_decide; simpl; [|done].
    rewrite bool_decide_eq_false_2 by done.
    rewrite bool_decide_eq_true_2 by done. simpl. done.
Qed.

Lemma verification_report_witness :
  (Verifier.run_verification keeping_optimizer one_line_original protected_sample
     Verifier.init).1 = Ok true.
Proof.
  destruct (verification_report keeping_optimizer one_line_original protected_sample)
    as (_ & Hiff & _).
  - vm_compute. lia.
  - apply Hiff. split.
    + unfold artifacts_present. vm_compute. lia.
    + eexists. split; [reflexivity|]. vm_compute. lia.
Defined.

(** X13. The hard gates of the pipeline, whatever the original unit (the
    summary and its division are not reached): a protected unit that lacks
    an artifact fails without the optimizer being consulted; a failing
    optimizer fails the run; and an optimizer output without an abort call
    fails the run with zero surviving calls recorded and no size measured
    for the optimized or the original unit. *)
Theorem verification_gates (compile_with_optimization : string → option string)
    (original_ir protected_ir : string) :
  let p := Verifier.run_verification compile_with_optimization original_ir
             protected_ir Verifier.init in
  (¬ artifacts_present protected_ir →
   p.1 = Ok false
   ∧ ∀ other, Verifier.run_verification other original_ir protected_ir Verifier.init = p)
  ∧ (compile_with_optimization protected_ir = None → p.1 = Ok false)
  ∧ (∀ optimized_ir,
       artifacts_present protected_ir →
       compile_with_optimization protected_ir = Some optimized_ir →
       abort_calls optimized_ir = 0%nat →
       p.1 = Ok false
       ∧ Verifier.abort_calls_optimized p.2 = 0%nat
       ∧ Verifier.optimized_size p.2 = 0%nat
       ∧ Verifier.original_size p.2 = 0%nat
       ∧ Verifier.verification_passed p.2 = false).
Proof.
  intros p. subst p. unfold Verifier.run_verification.
  split; [|split].
  - intros Hn. destruct (verify_protected_ir_missing _ Hn) as (r & -> & _).
    simpl. split; [done|]. intros other. done.
  - intros Hnone.
    destruct (Verifier.verify_protected_ir protected_ir Verifier.init) as [[] r];
      simpl; [by rewrite Hnone|done].
  - intros o Ha Ho Hz.
    rewrite verify_protected_ir_report by done. simpl. rewrite Ho.
    unfold Verifier.verify_optimized_ir, Verifier.verify_abort_present.
    fold (abort_calls o). rewrite Hz. simpl. done.
Qed.

Lemma verification_gates_witness :
  (Verifier.run_verification stripping_optimizer comment_only_original
     protected_sample Verifier.init).1 = Ok false.
Proof.
  destruct (verification_gates stripping_optimizer comment_only_original
              protected_sample) as (_ & _ & Hstrip).
  destruct (Hstrip (line "  ret i32 0")) as [Hr _].
  - unfold artifacts_present. vm_compute. lia.
  - reflexivity.
  - vm_compute. reflexivity.
  - exact Hr.
Defined.

(** * The output of a protector under the verifier's checks *)

Section Artifacts.
Variable eligible : nat → string → option icmp_info.

(** A run that moves the block counter has written the abort call. *)
Lemma inject_split_entry lines : ∀ i m added c out c',
  inject eligible i lines m added c = Ok (out, c') →
  (block_counter c < block_counter c')%nat →
  abort_call_entry ∈ out.
Proof.
  induction lines as [|x rest IH]; intros i m added c out c' Hr Hlt.
  - apply inject_nil in Hr as [_ ->]. lia.
  - apply inject_cons in Hr as (ls & m1 & added1 & c1 & out1 & Hs & Hr & ->).
    apply elem_of_app.
    destruct Hs; try (right; by eapply IH).
    left. unfold split_lines, abort_call_entry.
    do 4 apply list_elem_of_further. apply list_elem_of_here.
Qed.

(** A run from the outer loop that moves the block counter has protected
    a comparison first, and written its verification line. *)
Lemma inject_verify_entry lines : ∀ i added c out c',
  inject eligible i lines Scanning added c = Ok (out, c') →
  (block_counter c < block_counter c')%nat →
  ∃ n m info,
    verify_line ("%verify_" +:+ str n) ("%dup_" +:+ str m) info ∈ out.
Proof.
  induction lines as [|x rest IH]; intros i added c out c' Hr Hlt.
  - apply inject_nil in Hr as [_ ->]. lia.
  - apply inject_cons in Hr as (ls & m1 & added1 & c1 & out1 & Hs & Hr & ->).
    inversion Hs; subst.
    + destruct (IH _ _ _ _ _ Hr Hlt) as (n & m & info & Hin).
      exists n, m, info. apply elem_of_app. by right.
    + eexists _, _, _. apply elem_of_app. left.
      do 2 apply list_elem_of_further. apply list_elem_of_here.
    + destruct (IH _ _ _ _ _ Hr Hlt) as (n & m & info & Hin).
      exists n, m, info. apply elem_of_app. by right.
Qed.

End Artifacts.

Section ArtifactsInText.
Import Verifier.

Lemma writelines_elem e out :
  e ∈ out → ∃ pre post, writelines out = pre +:+ e +:+ post.
Proof.
  induction out as [|x out IH]; intros Hin; [by apply elem_of_nil in Hin|].
  apply elem_of_cons in Hin as [->|Hin].
  - exists EmptyString, (writelines out). done.
  - destruct (IH Hin) as (pre & post & Heq). exists (x +:+ pre), post.
    simpl. by rewrite Heq, append_assoc.
Qed.

Lemma digit_first (d : Decimal.uint) :
  d ≠ Decimal.Nil →
  ∃ a rest, NilEmpty.string_of_uint d = String a rest ∧ isdigit a = true.
Proof. destruct d; intros Hne; try done; simpl; eauto. Qed.

Lemma str_digit (n : nat) : ∃ a rest, str n = String a rest ∧ isdigit a = true.
Proof.
  unfold str, NilZero.string_of_uint.
  destruct (Nat.to_uint n) eqn:E; try (rewrite <- E; apply digit_first; congruence).
  eexists _, _. split; reflexivity.
Qed.

Lemma abort_call_counted out :
  abort_call_entry ∈ out → (0 < abort_calls (writelines out))%nat.
Proof.
  intros (pre & post & ->)%writelines_elem.
  apply literal_count_pos; [done|].
  exists (pre +:+ "  "), ("()" +:+ nl +:+ post).
  unfold abort_call_entry. by rewrite !append_assoc.
Qed.

Lemma verify_line_counted n m info out :
  verify_line ("%verify_" +:+ str n) ("%dup_" +:+ str m) info ∈ out →
  (0 < duplicate_ids (writelines out))%nat ∧ (0 < verify_ids (writelines out))%nat.
Proof.
  intros (pre & post & ->)%writelines_elem.
  destruct (str_digit n) as (a & ra & Hn & Ha).
  destruct (str_digit m) as (b & rb & Hm & Hb).
  unfold verify_line. rewrite Hn, Hm. split.
  - apply prefix_digits_count_pos.
    exists (pre +:+ "  " +:+ ("%verify_" +:+ String a ra) +:+ " = icmp eq i1 "
            +:+ result info +:+ ", "), b, (rb +:+ nl +:+ post).
    split; [done|]. by rewrite !append_assoc.
  - apply prefix_digits_count_pos.
    exists (pre +:+ "  "), a,
      (ra +:+ " = icmp eq i1 " +:+ result info +:+ ", "
       +:+ ("%dup_" +:+ String b rb) +:+ nl +:+ post).
    split; [done|]. by rewrite !append_assoc.
Qed.

End ArtifactsInText.

(** X14. The protectors and the verifier agree: when a run of either
    protector has split at least one branch (its block counter has moved),
    the text it writes holds an abort call, a duplicate identifier and a
    verification identifier, so [verify_protected_ir] accepts it. *)
Theorem protected_output_verifies (lines : list string) :
  (∀ threshold self out self',
     Ranked.process_file lines threshold self = Ok (out, self') →
     (block_counter (Ranked.ctrs self) < block_counter (Ranked.ctrs self'))%nat →
     artifacts_present (writelines out)
     ∧ (Verifier.verify_protected_ir (writelines out) Verifier.init).1 = true)
  ∧ (∀ self out self',
       Basic.process_file lines self = Ok (out, self') →
       (block_counter self < block_counter self')%nat →
       artifacts_present (writelines out)
       ∧ (Verifier.verify_protected_ir (writelines out) Verifier.init).1 = true).
Proof.
  assert (∀ e c out c',
            inject e 0 lines Scanning false c = Ok (out, c') →
            (block_counter c < block_counter c')%nat →
            artifacts_present (writelines out)) as Hgen.
  { intros e c out c' Hi Hlt.
    pose proof (inject_split_entry e _ _ _ _ _ _ _ Hi Hlt) as Ha.
    destruct (inject_verify_entry e _ _ _ _ _ _ Hi Hlt) as (n & m & info & Hv).
    apply verify_line_counted in Hv as [Hd Hv].
    apply abort_call_counted in Ha. by repeat split. }
  split.
  - intros t self out self' (sel & c' & _ & Hi & Hc)%process_file_ok Hlt.
    rewrite Hc in Hlt. pose proof (Hgen _ _ _ _ Hi Hlt) as Ha.
    split; [done|]. by apply verify_protected_ir_true.
  - intros self out self' Hi Hlt. pose proof (Hgen _ _ _ _ Hi Hlt) as Ha.
    split; [done|]. by apply verify_protected_ir_true.
Qed.

Lemma protected_output_verifies_witness :
  ∃ out self',
    Basic.process_file nested_unit init_counters = Ok (out, self')
    ∧ artifacts_present (writelines out).
Proof.
  eexists _, _. split; [vm_compute; reflexivity|].
  refine (proj1 (proj2 (protected_output_verifies nested_unit)
                   init_counters _ _ _ _)).
  - vm_compute; reflexivity.
  - vm_compute. lia.
Defined.

(** * Tokens, and the lines the injector makes up *)

Section Tokens.

Lemma all_chars_app p (a b : string) :
  all_chars p (a +:+ b) = all_chars p a && all_chars p b.
Proof.
  induction a as [|c a IH]; [done|].
  change (String c a +:+ b) with (String c (a +:+ b)). simpl.
  by rewrite IH, andb_assoc.
Qed.

Lemma split_go_tokens s : ∀ cur,
  no_space cur = true → Forall is_token (split_go s cur).
Proof.
  induction s as [|c s IH]; intros cur Hc; simpl.
  - destruct (is_empty cur) eqn:He; constructor; [|constructor]. done.
  - destruct (isspace c) eqn:Hs.
    + destruct (is_empty cur) eqn:He; [by apply IH|].
      constructor; [done|by apply IH].
    + apply IH. unfold no_space in *. rewrite all_chars_app, Hc. simpl.
      by rewrite Hs.
Qed.

Lemma split_tokens s : Forall is_token (split s).
Proof. by apply split_go_tokens. Qed.

Lemma rstrip_no_space p t : no_space t = true → no_space (rstrip_by p t) = true.
Proof.
  unfold no_space. induction t as [|c t IH]; [done|].
  simpl. intros [Hc Ht]%andb_true_iff.
  change (rstrip_by p (String c t))
    with (if is_empty (rstrip_by p t) && p c then EmptyString
          else String c (rstrip_by p t)).
  destruct (is_empty (rstrip_by p t) && p c); [done|].
  simpl. by rewrite Hc, IH.
Qed.

Lemma no_space_newlines t : no_space t = true → newlines t = 0%nat.
Proof.
  unfold no_space. induction t as [|c t IH]; [done|].
  simpl. intros [Hc Ht]%andb_true_iff. rewrite IH by done.
  destruct (decide (c = "010"%char)) as [->|]; [done|lia].
Qed.

End Tokens.

(** X15. The fields of a comparison [parse_icmp] accepts are tokens: the
    result, the type and the second operand are not empty and hold no white
    space, and neither does the first operand. So the duplicate and the
    verification entries made from them are one line each. *)
Theorem parse_icmp_fields (ln : string) (info : icmp_info) :
  parse_icmp ln = Some info →
  contains "icmp" ln = true
  ∧ split ln !! 0%nat = Some (result info)
  ∧ is_token (result info) ∧ is_token (type info) ∧ is_token (op2 info)
  ∧ no_space (op1 info) = true
  ∧ (∀ n, newlines (dup_line ("%dup_" +:+ str n) info) = 1%nat)
  ∧ (∀ n m, newlines (verify_line ("%verify_" +:+ str n) ("%dup_" +:+ str m) info)
            = 1%nat).
Proof.
  unfold parse_icmp.
  destruct (contains "icmp" ln) eqn:Hc; [|done]. cbn [negb].
  pose proof (split_tokens ln) as Htok. cbv zeta.
  destruct (length (split ln) <? 7)%nat; [done|].
  destruct (split ln) as [|p0 [|p1 [|p2 [|p3 [|p4 [|p5 [|p6 rest]]]]]]]; try done.
  intros [= Hinfo].
  assert (result info = p0 ∧ type info = p4 ∧ op2 info = p6
          ∧ op1 info = rstrip_by (is_char ","%char) p5) as (Er & Et & E2 & E1)
    by (by rewrite <- Hinfo).
  clear Hinfo.
  apply Forall_cons in Htok as [T0 Htok].
  do 3 apply Forall_cons in Htok as [_ Htok].
  apply Forall_cons in Htok as [T4 Htok].
  apply Forall_cons in Htok as [T5 Htok].
  apply Forall_cons in Htok as [T6 _].
  assert (no_space (op1 info) = true) as H1
    by (rewrite E1; apply rstrip_no_space, T5).
  rewrite <- Er in T0. rewrite <- Et in T4. rewrite <- E2 in T6.
  split; [done|]. split; [by rewrite Er|].
  split; [done|]. split; [done|]. split; [done|]. split; [done|].
  split.
  - intros n. rewrite newlines_dup_line.
    rewrite !no_space_newlines; [done|apply T6|done|apply T4].
  - intros n m. rewrite newlines_verify_line.
    by rewrite no_space_newlines by apply T0.
Qed.

Lemma parse_icmp_fields_witness :
  ∃ info,
    parse_icmp (line "  %a = icmp eq i32 %x, 1") = Some info
    ∧ is_token (result info)
    ∧ newlines (dup_line ("%dup_" +:+ str 1000) info) = 1%nat.
Proof.
  eexists. split; [vm_compute; reflexivity|].
  destruct (parse_icmp_fields (line "  %a = icmp eq i32 %x, 1") _ eq_refl)
    as (_ & _ & Hr & _ & _ & _ & Hd & _).
  split; [exact Hr|exact (Hd 1000%nat)].
Defined.

(** * Fresh labels *)

Section Fresh.

Lemma to_uint_nonnil (n : nat) : Nat.to_uint n ≠ Decimal.Nil.
Proof.
  rewrite <- (DecimalNat.Unsigned.of_to n) at 1.
  rewrite DecimalNat.Unsigned.to_of. apply DecimalFacts.unorm_nonnil.
Qed.

Lemma str_inj (n m : nat) : str n = str m → n = m.
Proof.
  unfold str. intros H.
  apply (f_equal NilZero.uint_of_string) in H.
  rewrite !NilZero.usu in H by apply to_uint_nonnil.
  injection H as H. by apply DecimalNat.Unsigned.to_uint_inj.
Qed.

Lemma length_append (a b : string) :
  String.length (a +:+ b) = (String.length a + String.length b)%nat.
Proof.
  induction a as [|c a IH]; [done|].
  change (String c a +:+ b) with (String c (a +:+ b)). simpl. by rewrite IH.
Qed.

Lemma append_inj_r (c : string) : ∀ a b, a +:+ c = b +:+ c → a = b.
Proof.
  induction a as [|x a IH]; intros [|y b] H; [done| | |].
  - apply (f_equal String.length) in H.
    change (String.length c = S (String.length (b +:+ c))) in H.
    rewrite length_append in H. lia.
  - apply (f_equal String.length) in H.
    change (S (String.length (a +:+ c)) = String.length c) in H.
    rewrite length_append in H. lia.
  - change (String x (a +:+ c) = String y (b +:+ c)) in H.
    injection H as -> H. f_equal. by apply IH.
Qed.

Lemma safe_entry_inj n m : safe_entry n = safe_entry m → n = m.
Proof.
  unfold safe_entry. intros H.
  change (String "s" (String "a" (String "f" (String "e" (String "_"
            (str n +:+ ":" +:+ nl)))))
          = String "s" (String "a" (String "f" (String "e" (String "_"
              (str m +:+ ":" +:+ nl)))))) in H.
  injection H as H. by apply append_inj_r, str_inj in H.
Qed.

Lemma fault_entry_inj n m : fault_entry n = fault_entry m → n = m.
Proof.
  unfold fault_entry. intros H.
  change (String "f" (String "a" (String "u" (String "l" (String "t" (String "_"
            (str n +:+ ":" +:+ nl))))))
          = String "f" (String "a" (String "u" (String "l" (String "t" (String "_"
              (str m +:+ ":" +:+ nl))))))) in H.
  injection H as H. by apply append_inj_r, str_inj in H.
Qed.

Lemma occurrences_app e (a b : list string) :
  occurrences e (a ++ b) = (occurrences e a + occurrences e b)%nat.
Proof. unfold occurrences. by rewrite filter_app, length_app. Qed.

Lemma occurrences_cons_ne e x (a : list string) :
  x ≠ e → occurrences e (x :: a) = occurrences e a.
Proof. intros Hne. unfold occurrences. by rewrite filter_cons, decide_False. Qed.

Lemma occurrences_cons_eq e (a : list string) :
  occurrences e (e :: a) = S (occurrences e a).
Proof. unfold occurrences. by rewrite filter_cons, decide_True. Qed.

Variable eligible : nat → string → option icmp_info.

(** The labels a step defines: those of its block number, when it splits. *)
Lemma step_labels i x m added c ls m1 added1 c1 n :
  x ≠ safe_entry n → x ≠ fault_entry n →
  step_of eligible i x m added c ls m1 added1 c1 →
  (block_counter c ≤ block_counter c1 ≤ S (block_counter c))%nat
  ∧ occurrences (safe_entry n) ls = used_between c c1 n
  ∧ occurrences (fault_entry n) ls = used_between c c1 n.
Proof.
  intros Hs Hf Hstep. unfold used_between.
  assert (∀ e, first_char e ≠ Some " "%char → first_char e ≠ Some "010"%char →
               x ≠ e →
               (∀ d info, occurrences e [x; dup_line d info] = 0%nat)
               ∧ occurrences e [x] = 0%nat
               ∧ occurrences e [x; abort_decl] = 0%nat) as Hplain.
  { intros e He1 He2 Hx. repeat split; intros;
      repeat (rewrite occurrences_cons_ne;
              [|first [exact Hx | intros <-; by apply He1 | intros <-; by apply He2]]);
      done. }
  destruct Hstep; simpl.
  - rewrite bool_decide_eq_false_2 by lia.
    split; [lia|]. split; rewrite !occurrences_cons_ne; try done.
  - rewrite bool_decide_eq_false_2 by lia.
    split; [lia|]. split; rewrite !occurrences_cons_ne; try done.
  - rewrite bool_decide_eq_false_2 by lia.
    split; [lia|]. split; rewrite !occurrences_cons_ne; try done.
  - split; [lia|]. unfold split_lines.
    destruct (decide (n = block_counter c)) as [->|Hne].
    + rewrite bool_decide_eq_true_2 by lia.
      split.
      * rewrite occurrences_cons_ne by done.
        fold (safe_entry (block_counter c)). rewrite occurrences_cons_eq.
        rewrite !occurrences_cons_ne; done.
      * rewrite occurrences_cons_ne by done.
        rewrite occurrences_cons_ne by done.
        rewrite occurrences_cons_ne by done.
        fold (fault_entry (block_counter c)). rewrite occurrences_cons_eq.
        rewrite !occurrences_cons_ne; done.
    + rewrite bool_decide_eq_false_2 by lia.
      assert (safe_entry (block_counter c) ≠ safe_entry n) as Hs'
        by (intros ?%safe_entry_inj; lia).
      assert (fault_entry (block_counter c) ≠ fault_entry n) as Hf'
        by (intros ?%fault_entry_inj; lia).
      split.
      * rewrite occurrences_cons_ne by done.
        fold (safe_entry (block_counter c)).
        rewrite (occurrences_cons_ne _ (safe_entry _)) by done.
        rewrite !occurrences_cons_ne; done.
      * rewrite occurrences_cons_ne by done.
        rewrite occurrences_cons_ne by done.
        rewrite occurrences_cons_ne by done.
        fold (fault_entry (block_counter c)).
        rewrite (occurrences_cons_ne _ (fault_entry _)) by done.
        rewrite !occurrences_cons_ne; done.
  - rewrite bool_decide_eq_false_2 by lia.
    split; [lia|]. split; rewrite !occurrences_cons_ne; try done.
Qed.

Lemma inject_labels lines n : ∀ i m added c out c',
  safe_entry n ∉ lines → fault_entry n ∉ lines →
  inject eligible i lines m added c = Ok (out, c') →
  (block_counter c ≤ block_counter c')%nat
  ∧ occurrences (safe_entry n) out = used_between c c' n
  ∧ occurrences (fault_entry n) out = used_between c c' n.
Proof.
  induction lines as [|x rest IH]; intros i m added c out c' Hs Hf Hr.
  - apply inject_nil in Hr as [-> ->]. unfold used_between.
    rewrite bool_decide_eq_false_2 by lia. done.
  - apply inject_cons in Hr as (ls & m1 & added1 & c1 & out1 & Hstep & Hr & ->).
    assert (x ≠ safe_entry n) as Hxs by (intros ->; apply Hs; by left).
    assert (x ≠ fault_entry n) as Hxf by (intros ->; apply Hf; by left).
    assert (safe_entry n ∉ rest) as Hs' by (intros H; apply Hs; by right).
    assert (fault_entry n ∉ rest) as Hf' by (intros H; apply Hf; by right).
    destruct (step_labels _ _ _ _ _ _ _ _ _ n Hxs Hxf Hstep) as (Hb0 & Hs0 & Hf0).
    destruct (IH _ _ _ _ _ _ Hs' Hf' Hr) as (Hb1 & Hs1 & Hf1).
    rewrite !occurrences_app, Hs0, Hf0, Hs1, Hf1.
    unfold used_between in *.
    split; [lia|].
    split; repeat case_bool_decide; lia.
Qed.

End Fresh.

(** X16. Fresh labels are fresh within a run. The block counter never
    moves backwards, and for every number [n] whose two label entries are
    not already lines of the input, the output of either protector defines
    [safe_n] and [fault_n] exactly once when [n] lies between the counter
    before the run and the counter after it, and not at all otherwise. *)
Theorem labels_defined_once (lines : list string) (n : nat) :
  safe_entry n ∉ lines → fault_entry n ∉ lines →
  (∀ threshold self out self',
     Ranked.process_file lines threshold self = Ok (out, self') →
     (block_counter (Ranked.ctrs self) ≤ block_counter (Ranked.ctrs self'))%nat
     ∧ occurrences (safe_entry n) out
       = used_between (Ranked.ctrs self) (Ranked.ctrs self') n
     ∧ occurrences (fault_entry n) out
       = used_between (Ranked.ctrs self) (Ranked.ctrs self') n)
  ∧ (∀ self out self',
       Basic.process_file lines self = Ok (out, self') →
       (block_counter self ≤ block_counter self')%nat
       ∧ occurrences (safe_entry n) out = used_between self self' n
       ∧ occurrences (fault_entry n) out = used_between self self' n).
Proof.
  intros Hs Hf. split.
  - intros t self out self' (sel & c' & _ & Hi & Hc)%process_file_ok.
    rewrite Hc. by eapply inject_labels.
  - intros self out self' Hi. by eapply inject_labels.
Qed.

Lemma labels_defined_once_witness :
  ∃ out self',
    Basic.process_file sequential_unit init_counters = Ok (out, self')
    ∧ block_counter self' = 102%nat
    ∧ occurrences (safe_entry 101) out = 1%nat
    ∧ occurrences (fault_entry 101) out = 1%nat.
Proof.
  eexists _, _. split; [vm_compute; reflexivity|]. split; [reflexivity|].
  assert (safe_entry 101 ∉ sequential_unit) as Hs0
    by (apply (bool_decide_unpack _); vm_compute; reflexivity).
  assert (fault_entry 101 ∉ sequential_unit) as Hf0
    by (apply (bool_decide_unpack _); vm_compute; reflexivity).
  destruct (proj2 (labels_defined_once sequential_unit 101 Hs0 Hf0)
              init_counters _ _ ltac:(vm_compute; reflexivity)) as (_ & Hs & Hf).
  split; [exact Hs|exact Hf].
Defined.

(** * What the summary counts *)

Section Counting.

Lemma hits_ext e1 e2 lines : ∀ i,
  (∀ k y, (i ≤ k)%nat → e1 k y = e2 k y) →
  hits e1 i lines = hits e2 i lines.
Proof.
  induction lines as [|x rest IH]; intros i He; simpl; [done|].
  rewrite (He i x) by lia. f_equal. apply IH. intros k y Hk. apply He. lia.
Qed.

Lemma step_hits eligible i x m added c ls m1 added1 c1 :
  step_of eligible i x m added c ls m1 added1 c1 →
  (register_counter c1
   ≤ register_counter c
     + 2 * match eligible i x with Some _ => 1 | None => 0 end)%nat.
Proof. intros Hs. destruct Hs; simpl; try lia. rewrite H0. lia. Qed.

Lemma inject_hits eligible lines : ∀ i m added c out c',
  inject eligible i lines m added c = Ok (out, c') →
  (register_counter c' ≤ register_counter c + 2 * hits eligible i lines)%nat.
Proof.
  induction lines as [|x rest IH]; intros i m added c out c' Hr.
  - apply inject_nil in Hr as [-> ->]. simpl. lia.
  - apply inject_cons in Hr as (ls & m1 & added1 & c1 & out1 & Hs & Hr & ->).
    apply step_hits in Hs. apply IH in Hr. simpl. lia.
Qed.

Lemma scan_hits all_lines lines : ∀ threshold i p,
  Ranked.scan all_lines threshold i lines = Ok p →
  (hits (Ranked.eligible p.2) i lines ≤ length p.2)%nat.
Proof.
  induction lines as [|x rest IH]; intros t i p; simpl.
  - intros [= <-]. simpl. lia.
  - destruct (parse_icmp x) as [icmp|].
    + destruct (Ranked.score_comparison (result icmp) all_lines i) as [s|e]; [|done].
      simpl.
      destruct (Ranked.scan all_lines t (S i) rest) as [q|e] eqn:Hq; [|done]. simpl.
      intros [= <-]. simpl.
      pose proof (IH _ _ _ Hq) as IH'.
      pose proof (scan_eligible_bound all_lines rest t (S i) q i x Hq) as Hb.
      destruct (bool_decide (t ≤ s)).
      * simpl.
        rewrite (hits_ext _ (Ranked.eligible q.2)).
        -- unfold Ranked.eligible at 1. simpl. rewrite bool_decide_eq_true_2 by done.
           simpl. lia.
        -- intros k y Hk. unfold Ranked.eligible. simpl.
           by rewrite bool_decide_eq_false_2 by lia.
      * rewrite Hb by lia. simpl. lia.
    + intros Hq.
      pose proof (IH _ _ _ Hq) as IH'.
      rewrite (scan_eligible_bound all_lines rest t (S i) p i x Hq) by lia.
      simpl. lia.
Qed.

Lemma scan_length all_lines lines : ∀ threshold i p,
  Ranked.scan all_lines threshold i lines = Ok p →
  length p.1 = length (comparison_lines lines).
Proof.
  unfold comparison_lines.
  induction lines as [|x rest IH]; intros t i p; simpl.
  - by intros [= <-].
  - rewrite filter_cons.
    destruct (parse_icmp x) as [icmp|] eqn:Hp.
    + destruct (Ranked.score_comparison (result icmp) all_lines i) as [s|e]; [|done].
      simpl.
      destruct (Ranked.scan all_lines t (S i) rest) as [q|e] eqn:Hq; [|done]. simpl.
      intros [= <-]. simpl. f_equal. by eapply IH.
    + intros Hq. case_decide as Hd; [by destruct Hd|]. by eapply IH.
Qed.

End Counting.

(** X17. What the summary of the ranked protector counts. A run that
    returns appends to [self.comparisons] one record for every line
    [parse_icmp] accepts; the comparisons it selects, whose number the
    summary reports as protected, are the records whose score reaches the
    threshold; and the register counter has moved by at most two for each
    selected comparison. *)
Theorem summary_bounds_protection (lines : list string) (threshold : Z)
    (self self' : Ranked.protector) (out : list string) :
  Ranked.process_file lines threshold self = Ok (out, self') →
  ∃ found sel,
    Ranked.selected lines threshold = Ok sel
    ∧ Ranked.comparisons self' = Ranked.comparisons self ++ found
    ∧ length found = length (comparison_lines lines)
    ∧ sel = filter (meets threshold) found
    ∧ (register_counter (Ranked.ctrs self')
       ≤ register_counter (Ranked.ctrs self) + 2 * length sel)%nat.
Proof.
  unfold Ranked.process_file, Ranked.selected.
  destruct (Ranked.scan lines threshold 0 lines) as [p|e] eqn:Hscan; [|done]. simpl.
  destruct (inject _ _ _ _ _ _) as [[o c]|e] eqn:Hi; [|done]. simpl.
  intros [= <- <-]. simpl.
  exists p.1, p.2. split; [done|]. split; [done|].
  split; [by eapply scan_length|].
  split; [by eapply scan_filter|].
  apply inject_hits in Hi. apply scan_hits in Hscan. lia.
Qed.

Lemma summary_bounds_protection_witness :
  ∃ out self' sel,
    Ranked.process_file nested_unit 0 Ranked.init = Ok (out, self')
    ∧ Ranked.selected nested_unit 0 = Ok sel
    ∧ length (Ranked.comparisons self') = 2%nat
    ∧ length sel = 2%nat
    ∧ register_counter (Ranked.ctrs self') = 1002%nat
    ∧ (register_counter (Ranked.ctrs self')
       ≤ register_counter (Ranked.ctrs Ranked.init) + 2 * length sel)%nat.
Proof.
  eexists _, _, _. split; [vm_compute; reflexivity|].
  split; [vm_compute; reflexivity|].
  split; [reflexivity|]. split; [reflexivity|]. split; [reflexivity|].
  destruct (summary_bounds_protection nested_unit 0 Ranked.init _ _
              ltac:(vm_compute; reflexivity)) as (found & sel & Hs & _ & _ & _ & Hb).
  injection Hs as <-. exact Hb.
Defined.
